(** * Typesense.Documents: the document endpoint of a collection

    A shallow embedding of [src/Typesense/Documents.ts]: the methods
    [create], [upsert], [update], [createMany], [import] and [export] of
    the class [Documents], over

    - JavaScript values as [JSON.parse] produces them ([value]),
    - the host's [JSON.stringify] / [JSON.parse] as an interface
      ([JSONHost]) with a reference implementation ([RefJSON]),
    - the objects the methods allocate and write ([heap]),
    - the requests handed to [ApiCall] and the warnings handed to the
      logger, both kept as traces in the [world]. *)

From Stdlib Require Import ZArith List String Ascii Lia Bool DecimalFacts DecimalPos.
From stdpp Require Import base option list strings gmap.
Import ListNotations.
Open Scope string_scope.
Open Scope list_scope.

(** ** JavaScript values *)

(** The values [JSON.parse] returns.  Numbers are the integer ones; the
    properties of an object are kept in property order.  [undefined] is
    not a JSON value: where the source can see it (an absent argument,
    a missing property) the model uses [option value] and [None]. *)
#[warnings="-register-all"]
Inductive value : Type :=
| JNull
| JBool (b : bool)
| JNum (n : Z)
| JStr (s : string)
| JArr (elems : list value)
| JObj (props : list (string * value)).

(** Induction over values, with the hypothesis for every element of an
    array and every property of an object. *)
Section value_induction.
Variable P : value -> Prop.
Hypothesis P_null : P JNull.
Hypothesis P_bool : forall b, P (JBool b).
Hypothesis P_num : forall n, P (JNum n).
Hypothesis P_str : forall s, P (JStr s).
Hypothesis P_arr : forall elems, Forall P elems -> P (JArr elems).
Hypothesis P_obj : forall props, Forall (fun kv => P (snd kv)) props -> P (JObj props).

Fixpoint value_nested_ind (v : value) : P v :=
  match v with
  | JNull => P_null
  | JBool b => P_bool b
  | JNum n => P_num n
  | JStr s => P_str s
  | JArr elems =>
      P_arr elems
        ((fix all (l : list value) : Forall P l :=
            match l with
            | [] => List.Forall_nil P
            | x :: l' => @List.Forall_cons _ P x l' (value_nested_ind x) (all l')
            end) elems)
  | JObj props =>
      P_obj props
        ((fix all (l : list (string * value)) : Forall (fun kv => P (snd kv)) l :=
            match l with
            | [] => List.Forall_nil _
            | kv :: l' => @List.Forall_cons _ _ kv l' (value_nested_ind (snd kv)) (all l')
            end) props)
  end.
End value_induction.

(** [ToBoolean], as used by [!document]. *)
Definition ToBoolean (v : option value) : bool :=
  match v with
  | None => false
  | Some JNull => false
  | Some (JBool b) => b
  | Some (JNum n) => negb (n =? 0)%Z
  | Some (JStr s) => negb (String.eqb s "")
  | Some (JArr _) => true
  | Some (JObj _) => true
  end.

(** An options bag ([DocumentWriteParameters], [DocumentsExportParameters]):
    a JavaScript object used as a map from field names to values. *)
Abbreviation object := (gmap string value).

(** Modelled from the spec: the failures of the transport, which are the
    error kinds [ApiCall] surfaces (section 7); [ApiCall.ts] and
    [Errors.ts] are not part of the sources at hand. *)
Inductive api_error : Type :=
| ServiceUnavailableError (message : string)
| ApplicationError (status : Z) (message : string)
| CancelledError.

(** What a method can throw or reject with.  [ImportError] is the class
    of [Errors.ts] as the source constructs it: a message and the results. *)
Inductive exn : Type :=
| Error (message : string)
| TypeError (message : string)
| SyntaxError (message : string)
| ImportError (message : string) (importResults : list value)
| ApiCallError (e : api_error).

(** Evaluation of an expression: a value, or an exception. *)
Inductive completion (A : Type) : Type :=
| Normal (a : A)
| Throw (e : exn).
Arguments Normal {A} a.
Arguments Throw {A} e.

#[global] Instance completion_ret : MRet completion := fun A a => Normal a.

#[global] Instance completion_bind : MBind completion := fun A B k c =>
  match c with
  | Normal a => k a
  | Throw e => Throw e
  end.

(** [Array.prototype.map] with a callback that may throw: the first
    exception ends the traversal. *)
Fixpoint Array_map {A B} (f : A -> completion B) (l : list A) : completion (list B) :=
  match l with
  | [] => Normal []
  | x :: l' =>
      y ← f x;
      ys ← Array_map f l';
      Normal (y :: ys)
  end.

(** [Array.prototype.filter], likewise. *)
Fixpoint Array_filter {A} (p : A -> completion bool) (l : list A) : completion (list A) :=
  match l with
  | [] => Normal []
  | x :: l' =>
      b ← p x;
      ys ← Array_filter p l';
      Normal (if b : bool then x :: ys else ys)
  end.

(** ** Strings *)

Definition LF : ascii := "010"%char.
Definition DQUOTE : ascii := "034"%char.
Definition newline : string := String LF "".

(** [s.split('\n')]: the pieces of [s] between line feeds; never empty. *)
Fixpoint split_lines (s : string) : list string :=
  match s with
  | "" => [""]
  | String c s' =>
      if Ascii.eqb c LF then "" :: split_lines s'
      else match split_lines s' with
           | l :: ls => String c l :: ls
           | [] => [String c ""]
           end
  end.

(** [a.join('\n')]. *)
Fixpoint join_lines (a : list string) : string :=
  match a with
  | [] => ""
  | [x] => x
  | x :: (_ :: _) as a' => x +:+ newline +:+ join_lines a'
  end.

(** [Number::toString] on an integer: decimal digits, a minus sign if
    negative. *)
Fixpoint digits_of_uint (d : Decimal.uint) : string :=
  match d with
  | Decimal.Nil => ""
  | Decimal.D0 d => String "0" (digits_of_uint d)
  | Decimal.D1 d => String "1" (digits_of_uint d)
  | Decimal.D2 d => String "2" (digits_of_uint d)
  | Decimal.D3 d => String "3" (digits_of_uint d)
  | Decimal.D4 d => String "4" (digits_of_uint d)
  | Decimal.D5 d => String "5" (digits_of_uint d)
  | Decimal.D6 d => String "6" (digits_of_uint d)
  | Decimal.D7 d => String "7" (digits_of_uint d)
  | Decimal.D8 d => String "8" (digits_of_uint d)
  | Decimal.D9 d => String "9" (digits_of_uint d)
  end.

Definition Number_toString (n : Z) : string :=
  match n with
  | Z0 => "0"
  | Zpos p => digits_of_uint (Pos.to_uint p)
  | Zneg p => String "-" (digits_of_uint (Pos.to_uint p))
  end.

(** ** Reading [r.success] *)

(** The own property [k] of an object, [undefined] if there is none. *)
Fixpoint own_property (k : string) (props : list (string * value)) : option value :=
  match props with
  | [] => None
  | (k', v) :: props' => if String.eqb k k' then Some v else own_property k props'
  end.

(** [r.success].  Reading a property of [null] throws; a primitive or
    an array has no property of that name, own or inherited. *)
Definition get_success (r : value) : completion (option value) :=
  match r with
  | JNull => Throw (TypeError "Cannot read properties of null (reading 'success')")
  | JObj props => Normal (own_property "success" props)
  | _ => Normal None
  end.

(** [x === false]. *)
Definition strict_eq_false (x : option value) : bool :=
  match x with
  | Some (JBool false) => true
  | _ => false
  end.

(** ** The host's JSON object *)

(** [JSON.stringify] on a JSON value always yields text; [JSON.parse]
    yields a value or throws a [SyntaxError], whose message the host
    chooses from the text it was given ([inl]). *)
Class JSONHost : Type := {
  JSON_stringify : value -> string;
  JSON_parse_text : string -> string + value
}.

Definition JSON_parse `{JSONHost} (text : string) : completion value :=
  match JSON_parse_text text with
  | inr v => Normal v
  | inl message => Throw (SyntaxError message)
  end.

(** ** A reference JSON host *)

(** [JSON.stringify] and [JSON.parse] after ECMA-262 (SerializeJSONProperty,
    QuoteJSONString, the JSON grammar, CreateDataProperty and the order of
    own property keys), on the values of this model: a string is a
    sequence of code units below 256, a number is an integer.  Text that
    denotes a value outside the model (a number literal with a fraction
    or an exponent, an escape [\uXXXX] of a code unit above 255) is not
    accepted here, and an integer keeps all its digits, also above 2^53,
    where a host that holds numbers as doubles rounds.  The host is used
    only where the two agree. *)
Module RefJSON.

Definition hex_digit (n : N) : ascii :=
  match n with
  | 0 => "0" | 1 => "1" | 2 => "2" | 3 => "3" | 4 => "4" | 5 => "5"
  | 6 => "6" | 7 => "7" | 8 => "8" | 9 => "9" | 10 => "a" | 11 => "b"
  | 12 => "c" | 13 => "d" | 14 => "e" | _ => "f"
  end%N%char.

(** One code unit inside a quoted string.  The literals below have no
    escape sequences: each is a backslash followed by what is written. *)
Definition quote_char (c : ascii) : string :=
  let n := N_of_ascii c in
  if (n =? 8)%N then "\b"
  else if (n =? 9)%N then "\t"
  else if (n =? 10)%N then "\n"
  else if (n =? 12)%N then "\f"
  else if (n =? 13)%N then "\r"
  else if (n =? 34)%N then String "\" (String DQUOTE "")
  else if (n =? 92)%N then "\\"
  else if (n <? 32)%N then
    "\u00" +:+ String (hex_digit (n / 16)) (String (hex_digit (n mod 16)) "")
  else String c "".

Fixpoint quote_chars (s : string) : string :=
  match s with
  | "" => ""
  | String c s' => quote_char c +:+ quote_chars s'
  end.

(** QuoteJSONString. *)
Definition quote (s : string) : string :=
  String DQUOTE (quote_chars s +:+ String DQUOTE "").

Fixpoint commas (a : list string) : string :=
  match a with
  | [] => ""
  | [x] => x
  | x :: (_ :: _) as a' => x +:+ "," +:+ commas a'
  end.

(** SerializeJSONProperty without indentation. *)
Fixpoint stringify (v : value) : string :=
  match v with
  | JNull => "null"
  | JBool true => "true"
  | JBool false => "false"
  | JNum n => Number_toString n
  | JStr s => quote s
  | JArr elems => "[" +:+ commas (map stringify elems) +:+ "]"
  | JObj props =>
      "{" +:+ commas (map (fun kv => quote (fst kv) +:+ ":" +:+ stringify (snd kv)) props) +:+ "}"
  end.

(** *** Parsing *)

Definition is_ws (c : ascii) : bool :=
  let n := N_of_ascii c in
  (n =? 9)%N || (n =? 10)%N || (n =? 13)%N || (n =? 32)%N.

Fixpoint skip_ws (s : string) : string :=
  match s with
  | "" => ""
  | String c s' => if is_ws c then skip_ws s' else s
  end.

Definition digit_value (c : ascii) : option N :=
  let n := N_of_ascii c in
  if (48 <=? n)%N && (n <=? 57)%N then Some (n - 48)%N else None.

Definition hex_value (c : ascii) : option N :=
  let n := N_of_ascii c in
  if (48 <=? n)%N && (n <=? 57)%N then Some (n - 48)%N
  else if (97 <=? n)%N && (n <=? 102)%N then Some (n - 87)%N
  else if (65 <=? n)%N && (n <=? 70)%N then Some (n - 55)%N
  else None.

(** The characters of a string literal after its opening quote, up to
    and without the closing quote; the rest of the text. *)
Fixpoint parse_chars (s : string) : option (string * string) :=
  match s with
  | "" => None
  | String c s' =>
      if (N_of_ascii c =? 34)%N then Some ("", s')
      else if (N_of_ascii c =? 92)%N then
        match s' with
        | "" => None
        | String e s'' =>
            let simple (c' : ascii) :=
              match parse_chars s'' with
              | Some (r, rest) => Some (String c' r, rest)
              | None => None
              end in
            if (N_of_ascii e =? 34)%N then simple e
            else if (N_of_ascii e =? 92)%N then simple e
            else if (N_of_ascii e =? 47)%N then simple e
            else if Ascii.eqb e "b" then simple (ascii_of_N 8)
            else if Ascii.eqb e "f" then simple (ascii_of_N 12)
            else if Ascii.eqb e "n" then simple (ascii_of_N 10)
            else if Ascii.eqb e "r" then simple (ascii_of_N 13)
            else if Ascii.eqb e "t" then simple (ascii_of_N 9)
            else if Ascii.eqb e "u" then
              match s'' with
              | String h1 (String h2 (String h3 (String h4 s3))) =>
                  match hex_value h1, hex_value h2, hex_value h3, hex_value h4 with
                  | Some 0%N, Some 0%N, Some a, Some b =>
                      match parse_chars s3 with
                      | Some (r, rest) => Some (String (ascii_of_N (16 * a + b)) r, rest)
                      | None => None
                      end
                  | _, _, _, _ => None
                  end
              | _ => None
              end
            else None
        end
      else if (N_of_ascii c <? 32)%N then None
      else
        match parse_chars s' with
        | Some (r, rest) => Some (String c r, rest)
        | None => None
        end
  end.

(** The digits at the head of [s], accumulated onto [acc]. *)
Fixpoint parse_digits (acc : N) (s : string) : N * string :=
  match s with
  | "" => (acc, "")
  | String c s' =>
      match digit_value c with
      | Some d => parse_digits (10 * acc + d) s'
      | None => (acc, s)
      end
  end.

Definition starts_fraction_or_exponent (s : string) : bool :=
  match s with
  | String c _ => Ascii.eqb c "." || Ascii.eqb c "e" || Ascii.eqb c "E"
  | "" => false
  end.

(** [0] or a non-zero digit followed by digits. *)
Definition parse_int (s : string) : option (N * string) :=
  match s with
  | "" => None
  | String c s' =>
      match digit_value c with
      | None => None
      | Some 0%N => if starts_fraction_or_exponent s' then None else Some (0%N, s')
      | Some d =>
          let '(n, rest) := parse_digits d s' in
          if starts_fraction_or_exponent rest then None else Some (n, rest)
      end
  end.

Definition parse_number (s : string) : option (Z * string) :=
  match s with
  | String "-" s' =>
      match parse_int s' with
      | Some (n, rest) => Some ((- Z.of_N n)%Z, rest)
      | None => None
      end
  | _ =>
      match parse_int s with
      | Some (n, rest) => Some (Z.of_N n, rest)
      | None => None
      end
  end.

Fixpoint strip_prefix (p s : string) : option string :=
  match p, s with
  | "", _ => Some s
  | String a p', String b s' => if Ascii.eqb a b then strip_prefix p' s' else None
  | String _ _, "" => None
  end.

(** *** Own property keys and CreateDataProperty *)

Fixpoint all_digits (s : string) : bool :=
  match s with
  | "" => true
  | String c s' => match digit_value c with Some _ => all_digits s' | None => false end
  end.

(** An array index: a canonical numeric string below [2^32 - 1]. *)
Definition array_index (k : string) : option N :=
  match k with
  | "" => None
  | String c k' =>
      if all_digits k then
        let n := fst (parse_digits 0 k) in
        if String.eqb (Number_toString (Z.of_N n)) k && (n <? 4294967295)%N
        then Some n else None
      else None
  end.

Fixpoint replace_property (k : string) (v : value) (props : list (string * value))
  : list (string * value) :=
  match props with
  | [] => []
  | (k', v') :: ps =>
      if String.eqb k k' then (k', v) :: ps else (k', v') :: replace_property k v ps
  end.

Fixpoint insert_index (n : N) (k : string) (v : value) (props : list (string * value))
  : list (string * value) :=
  match props with
  | [] => [(k, v)]
  | (k', v') :: ps =>
      match array_index k' with
      | Some n' => if (n <? n')%N then (k, v) :: props else (k', v') :: insert_index n k v ps
      | None => (k, v) :: props
      end
  end.

(** CreateDataProperty on an ordinary object: an existing key keeps its
    place; a new array index goes among the indices in ascending order;
    any other new key goes last. *)
Definition define_property (k : string) (v : value) (props : list (string * value))
  : list (string * value) :=
  match own_property k props with
  | Some _ => replace_property k v props
  | None =>
      match array_index k with
      | Some n => insert_index n k v props
      | None => props ++ [(k, v)]
      end
  end.

(** *** The grammar *)

Fixpoint parse_value (fuel : nat) (s : string) : option (value * string) :=
  match fuel with
  | O => None
  | S fuel' =>
      match skip_ws s with
      | "" => None
      | String c s' =>
          if Ascii.eqb c "n" then
            rest ← strip_prefix "ull" s'; Some (JNull, rest)
          else if Ascii.eqb c "t" then
            rest ← strip_prefix "rue" s'; Some (JBool true, rest)
          else if Ascii.eqb c "f" then
            rest ← strip_prefix "alse" s'; Some (JBool false, rest)
          else if (N_of_ascii c =? 34)%N then
            '(str, rest) ← parse_chars s'; Some (JStr str, rest)
          else if Ascii.eqb c "[" then
            match skip_ws s' with
            | String "]" rest => Some (JArr [], rest)
            | _ => '(elems, rest) ← parse_elements fuel' s'; Some (JArr elems, rest)
            end
          else if Ascii.eqb c "{" then
            match skip_ws s' with
            | String "}" rest => Some (JObj [], rest)
            | _ => '(props, rest) ← parse_members fuel' [] s'; Some (JObj props, rest)
            end
          else
            '(n, rest) ← parse_number (String c s'); Some (JNum n, rest)
      end
  end
with parse_elements (fuel : nat) (s : string) : option (list value * string) :=
  match fuel with
  | O => None
  | S fuel' =>
      '(v, rest) ← parse_value fuel' s;
      match skip_ws rest with
      | String "," rest' =>
          '(vs, rest'') ← parse_elements fuel' rest'; Some (v :: vs, rest'')
      | String "]" rest' => Some ([v], rest')
      | _ => None
      end
  end
with parse_members (fuel : nat) (acc : list (string * value)) (s : string)
  : option (list (string * value) * string) :=
  match fuel with
  | O => None
  | S fuel' =>
      match skip_ws s with
      | String c s1 =>
          if (N_of_ascii c =? 34)%N then
            '(k, s2) ← parse_chars s1;
            match skip_ws s2 with
            | String ":" s3 =>
                '(v, s4) ← parse_value fuel' s3;
                let acc' := define_property k v acc in
                match skip_ws s4 with
                | String "," s5 => parse_members fuel' acc' s5
                | String "}" s5 => Some (acc', s5)
                | _ => None
                end
            | _ => None
            end
          else None
      | "" => None
      end
  end.

(** [JSON.parse(text)]: one value, white space around it, nothing else. *)
Definition parse (text : string) : string + value :=
  match parse_value (2 * String.length text + 2) text with
  | Some (v, rest) =>
      match skip_ws rest with
      | "" => inr v
      | _ => inl ("Unexpected non-whitespace character after JSON: " +:+ text)
      end
  | None => inl ("Unexpected token or end of JSON input: " +:+ text)
  end.

#[global] Instance host : JSONHost :=
  {| JSON_stringify := stringify; JSON_parse_text := parse |}.

(** *** Reading back what was written *)

(** The properties of an object as [JSON.parse] would have defined them,
    one after the other. *)
Definition properties_defined_in_order (props : list (string * value))
  : list (string * value) :=
  fold_left (fun acc kv => define_property (fst kv) (snd kv) acc) props [].

(** A value all of whose objects list their properties in property order:
    each key once, array indices first and ascending.  These are the
    values [JSON.parse] can return. *)
Fixpoint in_property_order (v : value) : Prop :=
  match v with
  | JArr elems =>
      (fix all (l : list value) : Prop :=
         match l with
         | [] => True
         | x :: l' => in_property_order x /\ all l'
         end) elems
  | JObj props =>
      properties_defined_in_order props = props /\
      (fix all (l : list (string * value)) : Prop :=
         match l with
         | [] => True
         | kv :: l' => in_property_order (snd kv) /\ all l'
         end) props
  | _ => True
  end.

(** Fuel that is enough to parse the text of a value. *)
Fixpoint weight (v : value) : nat :=
  match v with
  | JArr elems => S (fold_right (fun x n => S (weight x + n)) 0 elems)
  | JObj props => S (fold_right (fun kv n => S (weight (snd kv) + n)) 0 props)
  | _ => 1
  end.

Definition is_digit (c : ascii) : bool :=
  match digit_value c with
  | Some _ => true
  | None => false
  end.

(** What may follow a value inside an array or an object, or at the end. *)
Definition ends_value (rest : string) : bool :=
  match rest with
  | "" => true
  | String c _ => Ascii.eqb c "," || Ascii.eqb c "]" || Ascii.eqb c "}"
  end.

(** What does not continue a number. *)
Definition ends_number (rest : string) : bool :=
  match rest with
  | "" => true
  | String c _ => negb (is_digit c) && negb (starts_fraction_or_exponent rest)
  end.

(** The number written by the digits of [d] after those of [acc]. *)
Fixpoint digits_value (d : Decimal.uint) (acc : N) : N :=
  match d with
  | Decimal.Nil => acc
  | Decimal.D0 d => digits_value d (10 * acc + 0)
  | Decimal.D1 d => digits_value d (10 * acc + 1)
  | Decimal.D2 d => digits_value d (10 * acc + 2)
  | Decimal.D3 d => digits_value d (10 * acc + 3)
  | Decimal.D4 d => digits_value d (10 * acc + 4)
  | Decimal.D5 d => digits_value d (10 * acc + 5)
  | Decimal.D6 d => digits_value d (10 * acc + 6)
  | Decimal.D7 d => digits_value d (10 * acc + 7)
  | Decimal.D8 d => digits_value d (10 * acc + 8)
  | Decimal.D9 d => digits_value d (10 * acc + 9)
  end%N.

Definition starts_number (c : ascii) : bool := is_digit c || Ascii.eqb c "-".

Definition starts_value (c : ascii) : bool :=
  starts_number c || Ascii.eqb c "n" || Ascii.eqb c "t" || Ascii.eqb c "f"
  || Ascii.eqb c DQUOTE || Ascii.eqb c "[" || Ascii.eqb c "{".

(** One member of an object as [stringify] writes it. *)
Definition member (kv : string * value) : string :=
  quote (fst kv) +:+ ":" +:+ stringify (snd kv).

(** [v] is read back from its text, whatever follows the text. *)
Definition reads_back (v : value) : Prop :=
  forall (fuel : nat) (rest : string),
    weight v <= fuel -> ends_value rest = true ->
    parse_value fuel (stringify v +:+ rest) = Some (v, rest).

End RefJSON.

(** ** The world around a [Documents] object *)

(** A request as [ApiCall.performRequest] takes it.  The query parameters
    are the contents, at the time of the call, of the options object that
    was passed. *)
Record request : Type := {
  method : string;
  endpoint : string;
  queryParameters : object;
  bodyParameters : option value;
  additionalHeaders : list (string * string)
}.

(** Objects live in the heap and are passed by reference. *)
Abbreviation ref := nat (only parsing).

Record world : Type := {
  heap : list object;
  requests : list request;
  warnings : list string
}.

(** A settled promise. *)
Inductive promise (A : Type) : Type :=
| Fulfilled (a : A)
| Rejected (e : exn).
Arguments Fulfilled {A} a.
Arguments Rejected {A} e.

(** What the caller of a method gets: an exception thrown by the call
    itself, or a promise. *)
Inductive outcome (A : Type) : Type :=
| Thrown (e : exn)
| Returned (p : promise A).
Arguments Thrown {A} e.
Arguments Returned {A} p.

(** Computations that read and change the world. *)
Definition op (A : Type) : Type := world -> A * world.

#[global] Instance op_ret : MRet op := fun A a w => (a, w).

#[global] Instance op_bind : MBind op := fun A B k c w =>
  let '(a, w') := c w in k a w'.

(** [{ ... }]: a new object. *)
Definition alloc (o : object) : op ref :=
  fun w => (length (heap w),
            {| heap := heap w ++ [o]; requests := requests w; warnings := warnings w |}).

(** The properties of the object at [r]. *)
Definition contents (r : ref) (w : world) : object := default ∅ (heap w !! r).

Definition read (r : ref) : op object := fun w => (contents r w, w).

Definition write (r : ref) (o : object) : op unit :=
  fun w => (tt, {| heap := <[r := o]> (heap w); requests := requests w;
                   warnings := warnings w |}).

(** [Object.assign(target, ...sources)]: each source in turn has its
    properties set on the target. *)
Fixpoint Object_assign (target : ref) (sources : list ref) : op ref :=
  match sources with
  | [] => mret target
  | source :: sources' =>
      from ← read source;
      to ← read target;
      _ ← write target (from ∪ to);
      Object_assign target sources'
  end.

(** [logger.warn(message)]. *)
Definition logger_warn (message : string) : op unit :=
  fun w => (tt, {| heap := heap w; requests := requests w;
                   warnings := warnings w ++ [message] |}).

(** *** ApiCall *)

(** The transport.  Its methods are generic in the type of the response;
    [Documents] uses them at a document ([post<T>]) and at text
    ([performRequest<string>], [get<string>]).  What comes back may depend
    on the requests made so far. *)
Record ApiCall : Type := {
  response_data : list request -> request -> api_error + value;
  response_text : list request -> request -> api_error + string
}.

Definition settle {A} (r : api_error + A) : promise A :=
  match r with
  | inr a => Fulfilled a
  | inl e => Rejected (ApiCallError e)
  end.

Definition send (rq : request) : op unit :=
  fun w => (tt, {| heap := heap w; requests := requests w ++ [rq];
                   warnings := warnings w |}).

(** [apiCall.performRequest<string>(method, endpoint, {...})]. *)
Definition performRequest (api : ApiCall) (rq : request) : op (promise string) :=
  fun w => (settle (response_text api (requests w) rq), snd (send rq w)).

(** Modelled from the spec: [apiCall.post<T>(endpoint, bodyParameters,
    queryParameters)]; [post] and [get] are thin aliases over
    [performRequest] (section 6), and [ApiCall.ts] is not part of the
    sources at hand. *)
Definition post (api : ApiCall) (path : string) (body : option value) (query : ref)
  : op (promise value) :=
  fun w =>
    let rq := {| method := "post"; endpoint := path; queryParameters := contents query w;
                 bodyParameters := body; additionalHeaders := [] |} in
    (settle (response_data api (requests w) rq), snd (send rq w)).

(** Modelled from the spec: [apiCall.get<string>(endpoint,
    queryParameters)], an alias like [post]. *)
Definition get (api : ApiCall) (path : string) (query : ref) : op (promise string) :=
  fun w =>
    performRequest api
      {| method := "get"; endpoint := path; queryParameters := contents query w;
         bodyParameters := None; additionalHeaders := [] |} w.

(** ** class Documents *)

Module Documents.

(** [string | T[]], the argument and the result of [import]. *)
Inductive string_or_array : Type :=
| AString (s : string)
| AnArray (a : list value).

(** A [Documents] object: its transport and the path of its endpoint.
    [endpointPath(operation?)] is inherited from [SearchOnlyDocuments],
    which is not part of the sources at hand; it is taken as given. *)
Record instance : Type := {
  apiCall : ApiCall;
  endpointPath : option string -> string
}.

Definition createMany_deprecation : string :=
  "createMany is deprecated and will be removed in a future version. Use import instead, which now takes both an array of documents or a JSONL string of documents".

(** The message of the [ImportError], from the lengths of the two arrays. *)
Definition import_error_message (results failed : nat) : string :=
  Number_toString (Z.of_nat results - Z.of_nat failed)
  +:+ " documents imported successfully, "
  +:+ Number_toString (Z.of_nat failed)
  +:+ " documents failed during import. Use `error.importResults` from the raised exception to get a detailed error reason for each document.".

(** [(r) => r.success === false]. *)
Definition is_failed (r : value) : completion bool :=
  success ← get_success r;
  Normal (strict_eq_false success).

Section methods.
Context `{JSONHost} (this : instance).

(** [options = {}]: the default of a parameter left [undefined]. *)
Definition default_options (options : option ref) : op ref :=
  match options with
  | Some r => mret r
  | None => alloc ∅
  end.

(** A promise settled by the completion of an [async] body. *)
Definition async {A} (c : completion A) : promise A :=
  match c with
  | Normal a => Fulfilled a
  | Throw e => Rejected e
  end.

Definition create (document : option value) (options : option ref) : op (outcome value) :=
  options ← default_options options;
  if negb (ToBoolean document) then mret (Returned (Rejected (Error "No document provided")))
  else
    p ← post (apiCall this) (endpointPath this None) document options;
    mret (Returned p).

Definition upsert (document : option value) (options : option ref) : op (outcome value) :=
  options ← default_options options;
  if negb (ToBoolean document) then mret (Thrown (Error "No document provided"))
  else
    target ← alloc ∅;
    action ← alloc {[ "action" := JStr "upsert" ]};
    query ← Object_assign target [options; action];
    p ← post (apiCall this) (endpointPath this None) document query;
    mret (Returned p).

Definition update (document : option value) (options : option ref) : op (outcome value) :=
  options ← default_options options;
  if negb (ToBoolean document) then mret (Thrown (Error "No document provided"))
  else
    target ← alloc ∅;
    action ← alloc {[ "action" := JStr "update" ]};
    query ← Object_assign target [options; action];
    p ← post (apiCall this) (endpointPath this None) document query;
    mret (Returned p).

(** The request body of [import]: [documents.map((document) =>
    JSON.stringify(document)).join('\n')] for an array, the string itself
    otherwise. *)
Definition documentsInJSONLFormat (documents : string_or_array) : string :=
  match documents with
  | AnArray a => join_lines (map JSON_stringify a)
  | AString s => s
  end.

(** [resultsInJSONLFormat.split('\n').map((r) => JSON.parse(r))]. *)
Definition resultsInJSONFormat (resultsInJSONLFormat : string) : completion (list value) :=
  Array_map JSON_parse (split_lines resultsInJSONLFormat).

(** [resultsInJSONFormat.filter((r) => r.success === false)]. *)
Definition failedItems (results : list value) : completion (list value) :=
  Array_filter is_failed results.

(** What [import] does with the text of the response. *)
Definition import_results (documents : string_or_array) (resultsInJSONLFormat : string)
  : completion string_or_array :=
  match documents with
  | AnArray _ =>
      results ← resultsInJSONFormat resultsInJSONLFormat;
      failed ← failedItems results;
      if (0 <? length failed)%nat
      then Throw (ImportError (import_error_message (length results) (length failed)) results)
      else Normal (AnArray results)
  | AString _ => Normal (AString resultsInJSONLFormat)
  end.

Definition import (documents : string_or_array) (options : option ref)
  : op (outcome string_or_array) :=
  options ← default_options options;
  query ← read options;
  p ← performRequest (apiCall this)
        {| method := "post"; endpoint := endpointPath this (Some "import");
           queryParameters := query;
           bodyParameters := Some (JStr (documentsInJSONLFormat documents));
           additionalHeaders := [("Content-Type", "text/plain")] |};
  match p with
  | Rejected e => mret (Returned (Rejected e))
  | Fulfilled resultsInJSONLFormat =>
      mret (Returned (async (import_results documents resultsInJSONLFormat)))
  end.

Definition createMany (documents : list value) (options : option ref)
  : op (outcome string_or_array) :=
  options ← default_options options;
  _ ← logger_warn createMany_deprecation;
  import (AnArray documents) (Some options).

Definition export (options : option ref) : op (outcome string) :=
  options ← default_options options;
  p ← get (apiCall this) (endpointPath this (Some "export")) options;
  mret (Returned p).

End methods.

End Documents.

(** ** Vocabulary of the specification *)

(** A value whose properties can be read (RequireObjectCoercible).  Every
    [ImportResponse] is one; [null] is the one value [JSON.parse] returns
    that is not. *)
Definition ObjectCoercible (r : value) : bool :=
  match r with
  | JNull => false
  | _ => true
  end.

(** The failure marker of an import result: a [success] field that is
    present and equal to [false]. *)
Definition has_success_false (r : value) : bool :=
  match r with
  | JObj props =>
      match own_property "success" props with
      | Some (JBool false) => true
      | _ => false
      end
  | _ => false
  end.

(** A line: text without a line feed. *)
Fixpoint single_line (s : string) : bool :=
  match s with
  | "" => true
  | String c s' => negb (Ascii.eqb c LF) && single_line s'
  end.

(** The encodings of the records one after the other, in input order,
    each but the first preceded by one line feed. *)
Definition joined_encodings `{JSONHost} (records : list value) : string :=
  match records with
  | [] => ""
  | r :: records' =>
      fold_left (fun text r' => text +:+ newline +:+ JSON_stringify r') records'
                (JSON_stringify r)
  end.

(** The index of the first line of [text] that [JSON.parse] rejects. *)
Fixpoint first_rejected `{JSONHost} (lines : list string) : option nat :=
  match lines with
  | [] => None
  | line :: lines' =>
      match JSON_parse_text line with
      | inl _ => Some 0
      | inr _ => S <$> first_rejected lines'
      end
  end.

(** The summary of an import: how many records went in, how many did not. *)
Definition import_summary (succeeded failed : nat) : string :=
  Number_toString (Z.of_nat succeeded)
  +:+ " documents imported successfully, "
  +:+ Number_toString (Z.of_nat failed)
  +:+ " documents failed during import. Use `error.importResults` from the raised exception to get a detailed error reason for each document.".

(** The options a caller passed, as they are when the call is made. *)
Definition passed_options (options : option ref) (w : world) : object :=
  match options with
  | Some r => contents r w
  | None => ∅
  end.

(** Nothing that existed before has changed: the same requests and
    warnings, and every object of the heap as it was. *)
Definition untouched (w w' : world) : Prop :=
  requests w' = requests w /\ warnings w' = warnings w /\
  forall (r : ref) (o : object), heap w !! r = Some o -> heap w' !! r = Some o.

(** Every request of [new] carries [action] and, in every other field,
    what the caller's options hold. *)
Definition carries_action (action : string) (caller : object) (new : list request) : Prop :=
  forall rq : request, In rq new ->
    queryParameters rq !! "action" = Some (JStr action) /\
    forall k : string, k <> "action" -> queryParameters rq !! k = caller !! k.

(** What a call that overrides [action] leaves behind: one request if
    there was a document and none otherwise, each carrying [action] over
    the caller's options, and every object that existed, the caller's
    options among them, as it was. *)
Definition overrides_action (action : string) (document : option value)
  (options : option ref) (w w' : world) : Prop :=
  (exists new : list request,
     requests w' = requests w ++ new /\
     length new = (if ToBoolean document then 1 else 0) /\
     carries_action action (passed_options options w) new) /\
  warnings w' = warnings w /\
  forall (r : ref) (o : object), heap w !! r = Some o -> heap w' !! r = Some o.

(** The call both [upsert] and [update] make once a document is there,
    with the value of [action] left open. *)
Definition post_with_action (this : Documents.instance) (action : string)
  (document : option value) (options : ref) : op (outcome value) :=
  target ← alloc ∅;
  action ← alloc {[ "action" := JStr action ]};
  query ← Object_assign target [options; action];
  p ← post (Documents.apiCall this) (Documents.endpointPath this None) document query;
  mret (Returned p).

(** The object at an address of a heap. *)
Definition obj (h : list object) (r : ref) : object := default ∅ (h !! r).

(** *** A collection to try things on *)

Definition companies_path (operation : option string) : string :=
  "/collections/companies/documents"
  +:+ match operation with
      | Some o => "/" +:+ o
      | None => ""
      end.

(** A service that stores what it is sent and answers every import or
    export with [text]. *)
Definition answering (text : string) : Documents.instance :=
  {| Documents.apiCall :=
       {| response_data := fun _ rq =>
            match bodyParameters rq with
            | Some v => inr v
            | None => inl (ApplicationError 400 "Bad Request")
            end;
          response_text := fun _ _ => inr text |};
     Documents.endpointPath := companies_path |}.

(** A service that cannot be reached. *)
Definition unreachable : Documents.instance :=
  {| Documents.apiCall :=
       {| response_data := fun _ _ => inl (ServiceUnavailableError "Request failed");
          response_text := fun _ _ => inl (ServiceUnavailableError "Request failed") |};
     Documents.endpointPath := companies_path |}.

(** A world with one object, the options [{dirty_values: 'drop', action:
    'create'}], at address 0. *)
Definition a_world : world :=
  {| heap := [ <[ "dirty_values" := JStr "drop" ]> {[ "action" := JStr "create" ]} ];
     requests := []; warnings := [] |}.

Definition success_line : value := JObj [("success", JBool true)].

Definition failure_line (document : value) : value :=
  JObj [("success", JBool false); ("error", JStr "Bad JSON."); ("document", document);
        ("code", JNum 400)].

Definition record_A : value := JObj [("id", JStr "124"); ("company_name", JStr "Stark Industries")].
Definition record_B : value := JObj [("id", JStr "125"); ("num_employees", JStr "many")].
Definition record_C : value := JObj [("id", JStr "126"); ("company_name", JStr "Acme")].

(** The response to an import of A, B and C in which B fails. *)
Definition abc_response : string :=
  join_lines (map RefJSON.stringify [success_line; failure_line record_B; success_line]).

(** The request an import of A, B and C makes of [companies_path] when no
    options are passed. *)
Definition abc_request : request :=
  {| method := "post"; endpoint := "/collections/companies/documents/import";
     queryParameters := ∅;
     bodyParameters :=
       Some (JStr (join_lines (map RefJSON.stringify [record_A; record_B; record_C])));
     additionalHeaders := [("Content-Type", "text/plain")] |}.

(** A response whose first line is [null] and whose second line reports
    that record A failed. *)
Definition null_then_failure : string :=
  "null" +:+ newline +:+ RefJSON.stringify (failure_line record_A).

(** *** More vocabulary *)

(** The number of line feeds in a text. *)
Fixpoint line_feeds (s : string) : nat :=
  match s with
  | "" => 0
  | String c s' => (if Ascii.eqb c LF then 1 else 0) + line_feeds s'
  end.

(** What a call leaves of the world it found: the requests and the
    warnings that were there, with [new] requests and [said] warnings
    after them, and every object that existed, as it was. *)
Definition only_adds (new : list request) (said : list string) (w w' : world) : Prop :=
  requests w' = requests w ++ new /\
  warnings w' = warnings w ++ said /\
  forall (r : ref) (o : object), heap w !! r = Some o -> heap w' !! r = Some o.

(** A response with a line that is not JSON between a success and a
    failure, and one that ends in a line feed. *)
Definition garbled_response : string :=
  RefJSON.stringify success_line +:+ newline +:+ "<html>" +:+ newline
  +:+ RefJSON.stringify (failure_line record_C).

Definition response_with_trailing_line_feed : string :=
  RefJSON.stringify success_line +:+ newline.

(** ** The methods at work *)

Example create_sends_the_document :
  Documents.create (answering "") (Some record_A) None a_world
  = (Returned (Fulfilled record_A),
     {| heap := heap a_world ++ [∅];
        requests := [{| method := "post"; endpoint := "/collections/companies/documents";
                        queryParameters := ∅; bodyParameters := Some record_A;
                        additionalHeaders := [] |}];
        warnings := [] |}).
Proof. reflexivity. Qed.

Example upsert_sends_its_action :
  map queryParameters
      (requests (snd (Documents.upsert (answering "") (Some record_A) (Some 0) a_world)))
  = [ <[ "dirty_values" := JStr "drop" ]> {[ "action" := JStr "upsert" ]} ].
Proof. vm_compute. reflexivity. Qed.

Example update_keeps_the_options_of_the_caller :
  heap (snd (Documents.update (answering "") (Some record_A) (Some 0) a_world)) !! 0
  = heap a_world !! 0.
Proof. vm_compute. reflexivity. Qed.

Example export_of_an_unreachable_service :
  fst (Documents.export unreachable None a_world)
  = Returned (Rejected (ApiCallError (ServiceUnavailableError "Request failed"))).
Proof. reflexivity. Qed.

Example import_of_three_that_succeed :
  fst (Documents.import
         (answering (join_lines (map RefJSON.stringify [success_line; success_line; success_line])))
         (Documents.AnArray [record_A; record_B; record_C]) None a_world)
  = Returned (Fulfilled (Documents.AnArray [success_line; success_line; success_line])).
Proof. vm_compute. reflexivity. Qed.

Example import_of_an_empty_array :
  exists message,
    fst (Documents.import (answering "") (Documents.AnArray []) None a_world)
    = Returned (Rejected (SyntaxError message)).
Proof. eexists. vm_compute. reflexivity. Qed.

Example summary_of_two_and_one :
  import_summary 2 1
  = "2 documents imported successfully, 1 documents failed during import. Use `error.importResults` from the raised exception to get a detailed error reason for each document.".
Proof. reflexivity. Qed.

Example object_keys_in_property_order :
  RefJSON.define_property "1" JNull
    (RefJSON.define_property "b" (JNum 2)
       (RefJSON.define_property "10" (JBool true)
          (RefJSON.define_property "b" (JNum 1) [])))
  = [("1", JNull); ("10", JBool true); ("b", JNum 2)].
Proof. reflexivity. Qed.

(** ** Lines *)

Lemma split_lines_nonempty (s : string) : split_lines s <> [].
Proof.
  destruct s as [|c s]; simpl; [discriminate|].
  destruct (Ascii.eqb c LF); [discriminate|].
  destruct (split_lines s); discriminate.
Qed.

Lemma join_lines_cons (x : string) (a : list string) :
  a <> [] -> join_lines (x :: a) = x +:+ newline +:+ join_lines a.
Proof. destruct a; [congruence | reflexivity]. Qed.

Lemma split_lines_String (c : ascii) (s : string) :
  Ascii.eqb c LF = false ->
  exists l ls, split_lines s = l :: ls /\ split_lines (String c s) = String c l :: ls.
Proof.
  intros Hc. simpl. rewrite Hc.
  destruct (split_lines s) as [|l ls] eqn:E.
  - destruct (split_lines_nonempty _ E).
  - eauto.
Qed.

(** Joining the lines of a text gives the text back. *)
Lemma join_split_lines (s : string) : join_lines (split_lines s) = s.
Proof.
  induction s as [|c s IH]; [reflexivity|].
  destruct (Ascii.eqb c LF) eqn:Hc.
  - simpl. rewrite Hc. apply Ascii.eqb_eq in Hc. subst c.
    rewrite join_lines_cons by apply split_lines_nonempty.
    rewrite IH. reflexivity.
  - destruct (split_lines_String c s Hc) as (l & ls & E & ->).
    rewrite E in IH. destruct ls as [|l' ls].
    + simpl in *. congruence.
    + change (join_lines (String c l :: l' :: ls))
        with (String c (l +:+ newline +:+ join_lines (l' :: ls))).
      f_equal. exact IH.
Qed.

Lemma split_lines_append (x s : string) :
  single_line x = true ->
  split_lines (x +:+ newline +:+ s) = x :: split_lines s.
Proof.
  induction x as [|c x IH]; intros Hx; [reflexivity|].
  simpl in Hx. apply andb_true_iff in Hx as [Hc Hx].
  apply negb_true_iff in Hc.
  change (String c x +:+ newline +:+ s) with (String c (x +:+ newline +:+ s)).
  simpl. rewrite Hc, (IH Hx). reflexivity.
Qed.

Lemma split_lines_single (x : string) : single_line x = true -> split_lines x = [x].
Proof.
  induction x as [|c x IH]; intros Hx; [reflexivity|].
  simpl in Hx. apply andb_true_iff in Hx as [Hc Hx].
  apply negb_true_iff in Hc. simpl. rewrite Hc, (IH Hx). reflexivity.
Qed.

(** Splitting what was joined gives the lines back, provided there is at
    least one and none contains a line feed. *)
Lemma split_join_lines (a : list string) :
  a <> [] -> forallb single_line a = true -> split_lines (join_lines a) = a.
Proof.
  induction a as [|x a IH]; intros Hne Ha; [congruence|].
  simpl in Ha. apply andb_true_iff in Ha as [Hx Ha].
  destruct a as [|y a].
  - simpl. apply split_lines_single, Hx.
  - rewrite join_lines_cons by discriminate.
    rewrite split_lines_append by exact Hx.
    rewrite IH; [reflexivity | discriminate | exact Ha].
Qed.

(** ** The heap *)

Ltac run :=
  unfold Documents.default_options, post, get, performRequest, alloc, read, write, send,
    logger_warn;
  repeat (unfold mbind, op_bind, mret, op_ret;
          cbn -[contents union lookup insert app length singletonM]).

Lemma obj_app_l (h h' : list object) (r : ref) : r < length h -> obj (h ++ h') r = obj h r.
Proof. intros. unfold obj. by rewrite lookup_app_l. Qed.

Lemma obj_app_length (h h' : list object) (o : object) : obj (h ++ o :: h') (length h) = o.
Proof. unfold obj. by rewrite list_lookup_middle. Qed.

Lemma obj_ge (h : list object) (r : ref) : length h <= r -> obj h r = ∅.
Proof. intros. unfold obj. by rewrite lookup_ge_None_2. Qed.

Lemma obj_insert_eq (h : list object) (r : ref) (o : object) :
  r < length h -> obj (<[r := o]> h) r = o.
Proof. intros. unfold obj. by rewrite list_lookup_insert_eq. Qed.

Lemma obj_insert_ne (h : list object) (r r' : ref) (o : object) :
  r <> r' -> obj (<[r := o]> h) r' = obj h r'.
Proof. intros. unfold obj. by rewrite list_lookup_insert_ne. Qed.

(** A field other than [action] reads the same in the heap extended by
    the two objects [upsert] and [update] allocate. *)
Lemma obj_two_fresh (h : list object) (r : ref) (v : value) (k : string) :
  k <> "action" ->
  obj (h ++ [∅; {[ "action" := v ]}]) r !! k = obj h r !! k.
Proof.
  intros Hk. destruct (Nat.lt_ge_cases r (length h)) as [Hlt|Hge].
  - by rewrite obj_app_l.
  - rewrite (obj_ge h r Hge), lookup_empty.
    destruct (decide (r = length h)) as [->|H0].
    + by rewrite obj_app_length.
    + destruct (decide (r = length (h ++ [∅]))) as [->|H1].
      * change (h ++ [∅; {["action" := v]}]) with (h ++ [∅] ++ [{["action" := v]}]).
        rewrite app_assoc, obj_app_length. by apply lookup_singleton_ne.
      * rewrite obj_ge; [apply lookup_empty|].
        rewrite length_app in *. simpl in *. lia.
Qed.

(** What [post_with_action] does, step by step. *)
Lemma post_with_action_run this action document options w :
  let h := heap w in
  let t := length h in
  let h3 := h ++ [∅; {[ "action" := JStr action ]}] in
  let q := {[ "action" := JStr action ]} ∪ (obj h3 options ∪ ∅) in
  let rq := {| method := "post"; endpoint := Documents.endpointPath this None;
               queryParameters := q; bodyParameters := document; additionalHeaders := [] |} in
  post_with_action this action document options w =
  (Returned (settle (response_data (Documents.apiCall this) (requests w) rq)),
   {| heap := <[t := q]> (<[t := obj h3 options ∪ ∅]> h3);
      requests := requests w ++ [rq]; warnings := warnings w |}).
Proof.
  intros h t h3 q rq. unfold post_with_action. run.
  unfold contents. cbn -[union lookup insert app length singletonM].
  fold (obj ((heap w ++ [∅]) ++ [{["action" := JStr action]}]) options).
  replace ((heap w ++ [∅]) ++ [{["action" := JStr action]}]) with h3
    by (subst h3 h; by rewrite <- app_assoc).
  fold h t.
  assert (Ht : t < length h3) by (subst h3 t; rewrite length_app; simpl; lia).
  assert (E0 : default ∅ (h3 !! t) = ∅) by (subst h3 t; apply obj_app_length).
  rewrite E0.
  assert (E1 : default ∅ (<[t:=obj h3 options ∪ ∅]> h3 !! length (h ++ [∅]))
               = {["action" := JStr action]}).
  { change (obj (<[t:=obj h3 options ∪ ∅]> h3) (length (h ++ [∅]))
            = {["action" := JStr action]}).
    rewrite obj_insert_ne by (subst t; rewrite length_app; simpl; lia).
    subst h3.
    change (h ++ [∅; {["action" := JStr action]}])
      with (h ++ [∅] ++ [{["action" := JStr action]}]).
    rewrite app_assoc. apply obj_app_length. }
  rewrite E1.
  assert (E2 : default ∅ (<[t:=obj h3 options ∪ ∅]> h3 !! t) = obj h3 options ∪ ∅)
    by (apply obj_insert_eq, Ht).
  rewrite E2.
  assert (E3 : default ∅ (<[t:={["action" := JStr action]} ∪ (obj h3 options ∪ ∅)]>
                            (<[t:=obj h3 options ∪ ∅]> h3) !! t) = q).
  { apply obj_insert_eq. by rewrite length_insert. }
  rewrite E3. reflexivity.
Qed.

(** The options of the caller, defaulted: the same requests and warnings,
    the old objects as they were, and the options found where they are
    said to be. *)
Lemma default_options_spec (options : option ref) (w : world) :
  let '(r, w1) := Documents.default_options options w in
  untouched w w1 /\ length (heap w) <= length (heap w1) /\
  (forall k, obj (heap w1) r !! k = passed_options options w !! k) /\
  (forall r', options = Some r' -> w1 = w).
Proof.
  destruct options as [r|]; simpl.
  - repeat split; auto.
  - repeat split; simpl; auto.
    + intros r o Hr. by apply lookup_app_l_Some.
    + rewrite length_app. lia.
    + intros k. change (heap w ++ [∅]) with (heap w ++ ∅ :: []). by rewrite obj_app_length.
    + discriminate.
Qed.

(** ** create, upsert, update *)

Lemma untouched_refl (w : world) : untouched w w.
Proof. repeat split; auto. Qed.

(** C10.  When the document is absent or falsy, [create], [upsert] and
    [update] fail with the error 'No document provided' ([create], being
    [async], through the promise it returns; the other two by throwing),
    and they fail before anything is sent: the requests, the warnings and
    every object of the heap are as they were. *)
Theorem no_document_provided (this : Documents.instance) (document : option value)
    (options : option ref) (w : world) :
  ToBoolean document = false ->
  (exists w', Documents.create this document options w
              = (Returned (Rejected (Error "No document provided")), w')
              /\ untouched w w') /\
  (exists w', Documents.upsert this document options w
              = (Thrown (Error "No document provided"), w')
              /\ untouched w w') /\
  (exists w', Documents.update this document options w
              = (Thrown (Error "No document provided"), w')
              /\ untouched w w').
Proof.
  intros Hfalsy.
  pose proof (default_options_spec options w) as Hd.
  unfold Documents.create, Documents.upsert, Documents.update.
  unfold mbind at 1 3 8, op_bind.
  destruct (Documents.default_options options w) as [r w1].
  destruct Hd as (Hu & _).
  rewrite Hfalsy. simpl. eauto 10.
Qed.

Lemma no_document_provided_witness :
  ToBoolean None = false /\
  exists w', Documents.upsert (answering "") None (Some 0) a_world
             = (Thrown (Error "No document provided"), w')
             /\ untouched a_world w'.
Proof.
  split; [reflexivity|].
  apply (no_document_provided (answering "") None (Some 0) a_world). reflexivity.
Defined.

Lemma post_with_action_overrides this action document options options' w w1 :
  ToBoolean document = true ->
  untouched w w1 -> length (heap w) <= length (heap w1) ->
  (forall k, obj (heap w1) options' !! k = passed_options options w !! k) ->
  overrides_action action document options w
    (snd (post_with_action this action document options' w1)).
Proof.
  intros Htruthy (Hrq & Hwarn & Hheap) Hlen Hopts.
  rewrite post_with_action_run. unfold overrides_action.
  cbn [snd requests warnings heap].
  split; [|split].
  - eexists [_]. rewrite Hrq, Htruthy. split; [reflexivity|]. split; [reflexivity|].
    intros rq [<-|[]]. cbn [queryParameters]. split.
    + apply lookup_union_Some_l, lookup_singleton_eq.
    + intros k Hk.
      rewrite lookup_union_r by (by apply lookup_singleton_ne).
      rewrite lookup_union_l by apply lookup_empty.
      rewrite obj_two_fresh by done. apply Hopts.
  - exact Hwarn.
  - intros r o Hr.
    pose proof (lookup_lt_Some _ _ _ Hr) as Hlt.
    rewrite !list_lookup_insert_ne by lia.
    apply lookup_app_l_Some, Hheap, Hr.
Qed.

(** C9.  The options [upsert] and [update] send have [action] set to
    'upsert' and 'update', whatever the caller put there; every other
    field is the caller's; and the caller's options object is not written
    to, nor is any other object that existed. *)
Theorem action_is_overridden (this : Documents.instance) (document : option value)
    (options : option ref) (w : world) :
  overrides_action "upsert" document options w
    (snd (Documents.upsert this document options w)) /\
  overrides_action "update" document options w
    (snd (Documents.update this document options w)).
Proof.
  pose proof (default_options_spec options w) as Hd.
  unfold Documents.upsert, Documents.update.
  unfold mbind at 1 6, op_bind.
  destruct (Documents.default_options options w) as [r w1].
  destruct Hd as (Hu & Hlen & Hopts & _).
  destruct (ToBoolean document) eqn:Htruthy; simpl.
  - split.
    + apply (post_with_action_overrides this "upsert" document options r w w1); auto.
    + apply (post_with_action_overrides this "update" document options r w w1); auto.
  - destruct Hu as (Hrq & Hwarn & Hheap).
    assert (Hnone : overrides_action "upsert" document options w w1
                    /\ overrides_action "update" document options w w1).
    { split; (split; [|split]; auto; exists []; rewrite Htruthy, app_nil_r;
              split; [exact Hrq|]; split; [reflexivity|]; intros ? []). }
    exact Hnone.
Qed.

(** ** export *)

(** C5.  [export] makes one request, a [get] of the export path with the
    caller's options, and settles with what the transport settles with:
    the body of the response is the result, as it came.  No JSON host
    takes part. *)
Theorem export_is_raw (this : Documents.instance) (options : option ref) (w : world) :
  exists rq : request,
    rq = {| method := "get"; endpoint := Documents.endpointPath this (Some "export");
            queryParameters := passed_options options w; bodyParameters := None;
            additionalHeaders := [] |} /\
    requests (snd (Documents.export this options w)) = requests w ++ [rq] /\
    warnings (snd (Documents.export this options w)) = warnings w /\
    fst (Documents.export this options w)
    = Returned (settle (response_text (Documents.apiCall this) (requests w) rq)) /\
    forall body : string,
      response_text (Documents.apiCall this) (requests w) rq = inr body ->
      fst (Documents.export this options w) = Returned (Fulfilled body).
Proof.
  eexists. split; [reflexivity|].
  destruct options as [r|]; unfold Documents.export; run.
  - repeat split. intros body ->. reflexivity.
  - unfold contents. cbn -[union lookup insert app length singletonM].
    rewrite list_lookup_middle by reflexivity. cbn [default from_option id].
    repeat split. intros body ->. reflexivity.
Qed.

(** ** import *)

(** [import] sends one request and settles from the response to it. *)
Lemma import_run `{JSONHost} (this : Documents.instance) (documents : Documents.string_or_array)
    (options : option ref) (w : world) :
  let rq := {| method := "post"; endpoint := Documents.endpointPath this (Some "import");
               queryParameters := passed_options options w;
               bodyParameters := Some (JStr (Documents.documentsInJSONLFormat documents));
               additionalHeaders := [("Content-Type", "text/plain")] |} in
  Documents.import this documents options w
  = (Returned
       match response_text (Documents.apiCall this) (requests w) rq with
       | inr text => Documents.async (Documents.import_results documents text)
       | inl e => Rejected (ApiCallError e)
       end,
     {| heap := heap (snd (Documents.default_options options w));
        requests := requests w ++ [rq]; warnings := warnings w |}).
Proof.
  destruct options as [r|]; unfold Documents.import; run.
  - destruct (response_text _ _ _); reflexivity.
  - unfold contents. cbn -[union lookup insert app length singletonM].
    rewrite list_lookup_middle by reflexivity. cbn [default from_option id].
    destruct (response_text _ _ _); reflexivity.
Qed.

(** C2.  Given text, [import] sends that text as the body of its one
    request and settles with the text of the response, or with the
    transport's error; the result does not depend on the JSON host, for
    nothing is decoded; an [ImportError] is never what comes out. *)
Theorem import_text_is_passed_through (host : JSONHost) (this : Documents.instance)
    (text : string) (options : option ref) (w : world) :
  exists rq : request,
    requests (snd (Documents.import this (Documents.AString text) options w))
    = requests w ++ [rq] /\
    bodyParameters rq = Some (JStr text) /\
    fst (Documents.import this (Documents.AString text) options w)
    = Returned
        match response_text (Documents.apiCall this) (requests w) rq with
        | inr raw => Fulfilled (Documents.AString raw)
        | inl e => Rejected (ApiCallError e)
        end /\
    (forall (message : string) (importResults : list value),
       fst (Documents.import this (Documents.AString text) options w)
       <> Returned (Rejected (ImportError message importResults)) /\
       fst (Documents.import this (Documents.AString text) options w)
       <> Thrown (ImportError message importResults)) /\
    forall host' : JSONHost,
      @Documents.import host' this (Documents.AString text) options w
      = @Documents.import host this (Documents.AString text) options w.
Proof.
  eexists. rewrite import_run. cbn [fst snd requests bodyParameters].
  split; [reflexivity|]. split; [reflexivity|]. split; [|split].
  - destruct (response_text _ _ _); reflexivity.
  - intros message importResults.
    destruct (response_text _ _ _); split; discriminate.
  - intros host'. rewrite (@import_run host'). reflexivity.
Qed.

(** ** createMany *)

(** C8.  [createMany] settles as [import] does on the same array and
    options, sends the same request and leaves the same heap; the one
    thing it adds is the deprecation warning. *)
Theorem createMany_is_import (host : JSONHost) (this : Documents.instance)
    (documents : list value) (options : option ref) (w : world) :
  let by_createMany := Documents.createMany this documents options w in
  let by_import := Documents.import this (Documents.AnArray documents) options w in
  fst by_createMany = fst by_import /\
  requests (snd by_createMany) = requests (snd by_import) /\
  heap (snd by_createMany) = heap (snd by_import) /\
  warnings (snd by_import) = warnings w /\
  warnings (snd by_createMany) = warnings w ++ [Documents.createMany_deprecation].
Proof.
  intros by_createMany by_import. subst by_createMany by_import.
  unfold Documents.createMany.
  destruct options as [r|];
    cbv [mbind op_bind mret op_ret Documents.default_options alloc logger_warn];
    rewrite !import_run;
    cbn [fst snd requests heap warnings passed_options Documents.default_options
         mret op_ret alloc].
  - repeat split.
  - unfold contents. cbn [heap].
    rewrite list_lookup_middle by reflexivity. cbn [default from_option id].
    repeat split.
Qed.

(** ** The partition of the results *)

Lemma filter_lengths {A} (f : A -> bool) (l : list A) :
  length (List.filter (fun x => negb (f x)) l) + length (List.filter f l) = length l.
Proof.
  induction l as [|x l IH]; [reflexivity|].
  simpl. destruct (f x); simpl; lia.
Qed.

Lemma has_success_false_iff (r : value) :
  has_success_false r = true <->
  exists props, r = JObj props /\ own_property "success" props = Some (JBool false).
Proof.
  split.
  - destruct r as [| | | | |props]; simpl; try discriminate.
    destruct (own_property "success" props) as [[|[]| | | |]|] eqn:E; try discriminate.
    eauto.
  - intros (props & -> & E). simpl. by rewrite E.
Qed.

Lemma is_failed_coercible (r : value) :
  ObjectCoercible r = true -> Documents.is_failed r = Normal (has_success_false r).
Proof.
  intros Hoc. destruct r; [discriminate | reflexivity ..].
Qed.

Lemma is_failed_null : exists e, Documents.is_failed JNull = Throw (TypeError e).
Proof. eexists. reflexivity. Qed.

Lemma failedItems_coercible (results : list value) :
  forallb ObjectCoercible results = true ->
  Documents.failedItems results = Normal (List.filter has_success_false results).
Proof.
  unfold Documents.failedItems.
  induction results as [|r results IH]; intros Hoc; [reflexivity|].
  simpl in Hoc. apply andb_true_iff in Hoc as [Hr Hoc].
  simpl. rewrite (is_failed_coercible r Hr), (IH Hoc). simpl.
  destruct (has_success_false r); reflexivity.
Qed.

Lemma failedItems_Normal (results failed : list value) :
  Documents.failedItems results = Normal failed ->
  forallb ObjectCoercible results = true.
Proof.
  unfold Documents.failedItems. revert failed.
  induction results as [|r results IH]; intros failed Hfailed; [reflexivity|].
  cbn [Array_filter] in Hfailed. destruct r; try discriminate;
    cbn [forallb ObjectCoercible andb];
    (destruct (Array_filter Documents.is_failed results) as [fs|e] eqn:E;
     [by apply (IH fs) | destruct (Documents.is_failed _); discriminate]).
Qed.

(** C7.  In the partition of the results of an import, the failed are
    the results with a [success] field equal to [false], in the order of
    the results; a result with no such field, or with any other value
    there, is not among them, and is counted with the succeeded. *)
Theorem failed_iff_success_is_false (results failed : list value) :
  Documents.failedItems results = Normal failed ->
  failed = List.filter has_success_false results /\
  (forall r, In r failed <->
             In r results /\ exists props,
               r = JObj props /\ own_property "success" props = Some (JBool false)) /\
  (forall r, In r results -> Documents.is_failed r = Normal (has_success_false r)) /\
  (forall r, Documents.is_failed r = Normal true <-> has_success_false r = true) /\
  length results - length failed
  = length (List.filter (fun r => negb (has_success_false r)) results).
Proof.
  intros Hfailed.
  pose proof (failedItems_Normal results failed Hfailed) as Hoc.
  rewrite (failedItems_coercible results Hoc) in Hfailed. injection Hfailed as <-.
  split; [reflexivity|]. split; [|split; [|split]].
  - intros r. rewrite filter_In, has_success_false_iff. reflexivity.
  - intros r Hr. apply is_failed_coercible.
    rewrite forallb_forall in Hoc. by apply Hoc.
  - intros r. destruct r as [| | | | |props]; cbn; try (split; discriminate).
    destruct (own_property "success" props) as [[|[]| | | |]|]; cbn;
      split; (discriminate || reflexivity).
  - pose proof (filter_lengths has_success_false results). lia.
Qed.

Lemma failed_iff_success_is_false_witness :
  let results := [success_line; failure_line record_B; JObj []; JNum 3; JStr "false";
                  JObj [("success", JNum 0)]; JObj [("success", JStr "")];
                  JObj [("success", JNull)]; JArr [JBool false];
                  JObj [("error", JStr "none"); ("success", JBool false)]] in
  let failed := [failure_line record_B;
                 JObj [("error", JStr "none"); ("success", JBool false)]] in
  Documents.failedItems results = Normal failed /\
  failed = List.filter has_success_false results.
Proof.
  intros results failed.
  assert (Hfailed : Documents.failedItems results = Normal failed) by reflexivity.
  split; [exact Hfailed|].
  apply (failed_iff_success_is_false results failed Hfailed).
Defined.

(** ** The outcome of a structured import *)

Lemma import_error_message_summary (f : value -> bool) (results : list value) :
  Documents.import_error_message (length results) (length (List.filter f results))
  = import_summary (length (List.filter (fun r => negb (f r)) results))
                   (length (List.filter f results)).
Proof.
  unfold Documents.import_error_message, import_summary.
  pose proof (filter_lengths f results). do 2 f_equal. lia.
Qed.

Lemma filter_nil_existsb {A} (f : A -> bool) (l : list A) :
  (0 <? length (List.filter f l))%nat = existsb f l.
Proof.
  induction l as [|x l IH]; [reflexivity|].
  simpl. destruct (f x); [reflexivity | exact IH].
Qed.

(** What [import] makes of the text of a response when the lines decode
    to values whose [success] can be read. *)
Lemma import_results_partition `{JSONHost} (documents : list value) (text : string)
    (results : list value) :
  Documents.resultsInJSONFormat text = Normal results ->
  forallb ObjectCoercible results = true ->
  Documents.import_results (Documents.AnArray documents) text
  = if existsb has_success_false results
    then Throw (ImportError
                  (import_summary
                     (length (List.filter (fun r => negb (has_success_false r)) results))
                     (length (List.filter has_success_false results)))
                  results)
    else Normal (Documents.AnArray results).
Proof.
  intros Hdecode Hoc. unfold Documents.import_results.
  rewrite Hdecode. cbn [mbind completion_bind].
  rewrite (failedItems_coercible results Hoc). cbn [mbind completion_bind].
  rewrite filter_nil_existsb, import_error_message_summary. reflexivity.
Qed.

(** C1.  A structured import whose response decodes to per-record
    results, that is to values whose [success] can be read, rejects with
    an [ImportError] if and only if one of the results is a failure.  The error carries all the
    results, in the order of the response, and a summary with the number
    that succeeded and the number that failed, which add up to the number
    of results.  With no failure the results are what the import resolves
    to. *)
Theorem import_partitions_results (host : JSONHost) (this : Documents.instance)
    (documents : list value) (options : option ref) (w : world)
    (rq : request) (text : string) (results : list value) :
  let call := Documents.import this (Documents.AnArray documents) options w in
  let succeeded := List.filter (fun r => negb (has_success_false r)) results in
  let failed := List.filter has_success_false results in
  requests (snd call) = requests w ++ [rq] ->
  response_text (Documents.apiCall this) (requests w) rq = inr text ->
  Documents.resultsInJSONFormat text = Normal results ->
  forallb ObjectCoercible results = true ->
  length succeeded + length failed = length results /\
  ((exists message importResults,
      fst call = Returned (Rejected (ImportError message importResults)))
   <-> Exists (fun r => has_success_false r = true) results) /\
  (Exists (fun r => has_success_false r = true) results ->
   fst call = Returned (Rejected
     (ImportError (import_summary (length succeeded) (length failed)) results))) /\
  (Forall (fun r => has_success_false r = false) results ->
   fst call = Returned (Fulfilled (Documents.AnArray results))).
Proof.
  intros call succeeded failed Hsent Hanswer Hdecode Hoc.
  subst call. rewrite import_run in *. cbn [fst snd requests] in *.
  apply app_inv_head in Hsent.
  assert (Hrq : rq = {| method := "post";
                        endpoint := Documents.endpointPath this (Some "import");
                        queryParameters := passed_options options w;
                        bodyParameters :=
                          Some (JStr (Documents.documentsInJSONLFormat
                                        (Documents.AnArray documents)));
                        additionalHeaders := [("Content-Type", "text/plain")] |})
    by congruence.
  rewrite <- Hrq, Hanswer.
  rewrite (import_results_partition documents text results Hdecode Hoc).
  fold succeeded failed.
  split; [apply filter_lengths|].
  destruct (existsb has_success_false results) eqn:Hex.
  - assert (Hsome : Exists (fun r => has_success_false r = true) results).
    { apply existsb_exists in Hex as (r & Hin & Hr). apply List.Exists_exists. eauto. }
    split; [|split].
    + split; [intros _; exact Hsome | intros _; eauto].
    + intros _. reflexivity.
    + intros Hall. exfalso.
      apply List.Exists_exists in Hsome as (r & Hin & Hr).
      rewrite List.Forall_forall in Hall. specialize (Hall r Hin). congruence.
  - assert (Hnone : ~ Exists (fun r => has_success_false r = true) results).
    { rewrite List.Exists_exists. intros (r & Hin & Hr).
      assert (existsb has_success_false results = true)
        by (apply existsb_exists; eauto).
      congruence. }
    split; [|split].
    + split; [intros (message & importResults & E); discriminate | contradiction].
    + contradiction.
    + intros _. reflexivity.
Qed.

Lemma import_partitions_results_witness :
  let call := Documents.import (answering abc_response)
                (Documents.AnArray [record_A; record_B; record_C]) None a_world in
  let results := [success_line; failure_line record_B; success_line] in
  (requests (snd call) = requests a_world ++ [abc_request] /\
   Documents.resultsInJSONFormat abc_response = Normal results /\
   forallb ObjectCoercible results = true) /\
  fst call = Returned (Rejected (ImportError (import_summary 2 1) results)).
Proof.
  intros call results.
  assert (Hsent : requests (snd call) = requests a_world ++ [abc_request])
    by (vm_compute; reflexivity).
  assert (Hdecode : Documents.resultsInJSONFormat abc_response = Normal results)
    by (vm_compute; reflexivity).
  assert (Hoc : forallb ObjectCoercible results = true) by reflexivity.
  split; [auto|].
  apply (import_partitions_results RefJSON.host (answering abc_response)
           [record_A; record_B; record_C] None a_world abc_request abc_response results
           Hsent eq_refl Hdecode Hoc).
  apply Exists_cons_tl, Exists_cons_hd. reflexivity.
Defined.

(** ** The body of a structured import *)

Lemma append_assoc (a b c : string) : (a +:+ b) +:+ c = a +:+ (b +:+ c).
Proof.
  induction a as [|x a IH]; [reflexivity|].
  change (String x ((a +:+ b) +:+ c) = String x (a +:+ (b +:+ c))).
  f_equal. exact IH.
Qed.

Lemma fold_left_join_lines (f : value -> string) (records : list value) (s : string) :
  fold_left (fun text r => text +:+ newline +:+ f r) records s
  = join_lines (s :: map f records).
Proof.
  revert s. induction records as [|r records IH]; intros s; [reflexivity|].
  cbn [fold_left map]. rewrite IH.
  rewrite (join_lines_cons s) by discriminate.
  destruct records as [|r' records]; [reflexivity|].
  cbn [map]. rewrite !join_lines_cons by discriminate.
  rewrite !append_assoc. reflexivity.
Qed.

Lemma documentsInJSONLFormat_joined `{JSONHost} (documents : list value) :
  Documents.documentsInJSONLFormat (Documents.AnArray documents) = joined_encodings documents.
Proof.
  destruct documents as [|r documents]; [reflexivity|].
  unfold joined_encodings. rewrite fold_left_join_lines. reflexivity.
Qed.

(** C6.  The body of the request of a structured import is the encodings
    of the records, in input order, with one line feed between each two
    and none after the last: its lines are the encodings, one per record. *)
Theorem import_body_is_joined_encodings (host : JSONHost) (this : Documents.instance)
    (documents : list value) (options : option ref) (w : world) :
  exists rq : request,
    requests (snd (Documents.import this (Documents.AnArray documents) options w))
    = requests w ++ [rq] /\
    bodyParameters rq = Some (JStr (joined_encodings documents)) /\
    (documents = [] -> joined_encodings documents = "") /\
    (documents <> [] ->
     forallb single_line (map JSON_stringify documents) = true ->
     split_lines (joined_encodings documents) = map JSON_stringify documents).
Proof.
  eexists. rewrite import_run. cbn [snd requests bodyParameters].
  split; [reflexivity|]. rewrite documentsInJSONLFormat_joined.
  split; [reflexivity|]. split.
  - intros ->. reflexivity.
  - intros Hne Hlines. rewrite <- documentsInJSONLFormat_joined.
    apply split_join_lines; [|exact Hlines].
    destruct documents; [congruence | discriminate].
Qed.

(** ** Decoding the response *)

Lemma JSON_parse_eq `{JSONHost} (line : string) :
  JSON_parse line = match JSON_parse_text line with
                    | inr v => Normal v
                    | inl message => Throw (SyntaxError message)
                    end.
Proof. reflexivity. Qed.

Lemma Array_map_cons {A B} (f : A -> completion B) (x : A) (l : list A) :
  Array_map f (x :: l) = y ← f x; ys ← Array_map f l; Normal (y :: ys).
Proof. reflexivity. Qed.

(** C4, as far as it holds.  The text of a response is split at the line
    feeds and each line is given to [JSON.parse] by itself.  If no line is
    rejected the results are the values of the lines, in order.  If a line
    is rejected there is no result, not even of the lines before it: the
    decoding throws what [JSON.parse] threw at the first such line, a
    [SyntaxError] whose message is made from the text of that line. *)
Theorem decode_line_by_line (host : JSONHost) (text : string) :
  match first_rejected (split_lines text) with
  | None =>
      exists results : list value,
        Documents.resultsInJSONFormat text = Normal results /\
        Forall2 (fun line r => JSON_parse_text line = inr r) (split_lines text) results
  | Some i =>
      exists (line message : string),
        split_lines text !! i = Some line /\
        JSON_parse_text line = inl message /\
        Documents.resultsInJSONFormat text = Throw (SyntaxError message)
  end.
Proof.
  unfold Documents.resultsInJSONFormat.
  induction (split_lines text) as [|line lines IH]; cbn [first_rejected].
  - exists []. split; [reflexivity | constructor].
  - rewrite Array_map_cons, JSON_parse_eq.
    destruct (JSON_parse_text line) as [message|r] eqn:Hline.
    + exists line, message. repeat split; auto.
    + cbn [mbind completion_bind].
      destruct (first_rejected lines) as [i|]; cbn [fmap option_fmap option_map].
      * destruct IH as (line' & message & Hi & Hrej & ->).
        exists line', message. repeat split; auto.
      * destruct IH as (results & -> & Hall).
        exists (r :: results). split; [reflexivity | by constructor].
Qed.

(** An import whose response does not decode rejects with the error of
    the decoding. *)
Lemma import_rejects_with_decode_error `{JSONHost} (this : Documents.instance)
    (documents : list value) (options : option ref) (w : world) (text : string) (e : exn) :
  (forall rq, response_text (Documents.apiCall this) (requests w) rq = inr text) ->
  Documents.resultsInJSONFormat text = Throw e ->
  fst (Documents.import this (Documents.AnArray documents) options w)
  = Returned (Rejected e).
Proof.
  intros Hanswer Hdecode. rewrite import_run. cbn [fst].
  rewrite Hanswer. unfold Documents.import_results. rewrite Hdecode. reflexivity.
Qed.

(** ** Encoding and decoding, one after the other *)

Lemma Array_map_stringified `{JSONHost} (records : list value) :
  Forall (fun r => single_line (JSON_stringify r) = true /\
                   JSON_parse_text (JSON_stringify r) = inr r) records ->
  Array_map JSON_parse (map JSON_stringify records) = Normal records.
Proof.
  induction 1 as [|r records [_ Hr] _ IH]; [reflexivity|].
  cbn [map]. rewrite Array_map_cons, JSON_parse_eq, Hr.
  cbn [mbind completion_bind]. rewrite IH. reflexivity.
Qed.

Lemma Array_map_canonical `{JSONHost} (lines : list string) (results : list value) :
  Array_map JSON_parse lines = Normal results ->
  Forall (fun line => forall r, JSON_parse_text line = inr r -> JSON_stringify r = line)
         lines ->
  map JSON_stringify results = lines.
Proof.
  revert results. induction lines as [|line lines IH]; intros results Hdecode Hcanon.
  - injection Hdecode as <-. reflexivity.
  - rewrite Array_map_cons, JSON_parse_eq in Hdecode.
    inversion Hcanon as [|? ? Hline Hlines]; subst.
    destruct (JSON_parse_text line) as [message|r] eqn:E; [discriminate|].
    cbn [mbind completion_bind] in Hdecode.
    destruct (Array_map JSON_parse lines) as [rs|e] eqn:E'; [|discriminate].
    injection Hdecode as <-. cbn [map].
    rewrite (Hline r eq_refl), (IH rs eq_refl Hlines). reflexivity.
Qed.

(** A sequence of at least one record, each written on one line and read
    back by the host, is decoded from its encoding as it was. *)
Lemma decode_encoded `{JSONHost} (records : list value) :
  records <> [] ->
  Forall (fun r => single_line (JSON_stringify r) = true /\
                   JSON_parse_text (JSON_stringify r) = inr r) records ->
  Documents.resultsInJSONFormat
    (Documents.documentsInJSONLFormat (Documents.AnArray records))
  = Normal records.
Proof.
  intros Hne Hrecords.
  unfold Documents.resultsInJSONFormat, Documents.documentsInJSONLFormat.
  rewrite split_join_lines.
  - by apply Array_map_stringified.
  - destruct records; [congruence | discriminate].
  - apply forallb_forall. intros line Hline.
    apply in_map_iff in Hline as (r & <- & Hr).
    rewrite List.Forall_forall in Hrecords. by apply Hrecords.
Qed.

(** A text that decodes, each line of which is what the host writes for
    the value of the line, is the encoding of what it decodes to. *)
Lemma encode_decoded `{JSONHost} (text : string) (results : list value) :
  Documents.resultsInJSONFormat text = Normal results ->
  Forall (fun line => forall r, JSON_parse_text line = inr r -> JSON_stringify r = line)
         (split_lines text) ->
  Documents.documentsInJSONLFormat (Documents.AnArray results) = text.
Proof.
  intros Hdecode Hcanon. unfold Documents.documentsInJSONLFormat.
  rewrite (Array_map_canonical (split_lines text) results Hdecode Hcanon).
  apply join_split_lines.
Qed.

(** C3, as far as it holds.  A sequence of at least one record, each of
    which [JSON.stringify] writes on one line and [JSON.parse] reads back,
    is decoded from its encoding as it was, record for record.  A text
    that decodes, and each of whose lines is what [JSON.stringify] writes
    for the value of the line, is the encoding of what it decodes to. *)
Theorem codec_round_trip (host : JSONHost) :
  (forall records : list value,
     records <> [] ->
     Forall (fun r => single_line (JSON_stringify r) = true /\
                      JSON_parse_text (JSON_stringify r) = inr r) records ->
     Documents.resultsInJSONFormat
       (Documents.documentsInJSONLFormat (Documents.AnArray records))
     = Normal records) /\
  (forall (text : string) (results : list value),
     Documents.resultsInJSONFormat text = Normal results ->
     Forall (fun line => forall r, JSON_parse_text line = inr r -> JSON_stringify r = line)
            (split_lines text) ->
     Documents.documentsInJSONLFormat (Documents.AnArray results) = text).
Proof. split; [apply decode_encoded | apply encode_decoded]. Qed.

Lemma import_body_is_joined_encodings_witness :
  let documents := [record_A; record_B; record_C] in
  (documents <> [] /\ forallb single_line (map JSON_stringify documents) = true) /\
  split_lines (joined_encodings documents) = map JSON_stringify documents.
Proof.
  intros documents.
  assert (Hne : documents <> []) by discriminate.
  assert (Hlines : forallb single_line (map JSON_stringify documents) = true)
    by (vm_compute; reflexivity).
  split; [auto|].
  destruct (import_body_is_joined_encodings RefJSON.host (answering abc_response)
              documents None a_world) as (rq & _ & _ & _ & Hsplit).
  exact (Hsplit Hne Hlines).
Defined.

Lemma codec_round_trip_witness :
  let records := [record_A; record_B; record_C] in
  (records <> [] /\
   Forall (fun r => single_line (JSON_stringify r) = true /\
                    JSON_parse_text (JSON_stringify r) = inr r) records) /\
  Documents.resultsInJSONFormat
    (Documents.documentsInJSONLFormat (Documents.AnArray records))
  = Normal records.
Proof.
  intros records.
  assert (Hne : records <> []) by discriminate.
  assert (Hrecords : Forall (fun r => single_line (JSON_stringify r) = true /\
                                      JSON_parse_text (JSON_stringify r) = inr r) records)
    by (repeat constructor; vm_compute; reflexivity).
  split; [auto|].
  exact (proj1 (codec_round_trip RefJSON.host) records Hne Hrecords).
Defined.

(** ** Where the specification and the code part *)

(** C3 as stated does not hold.  The text [[1, 2]] decodes, and what it
    decodes to encodes as [[1,2]], without the blank.  The empty sequence
    encodes as the empty text, which does not decode: [JSON.parse] rejects
    the one empty line it is split into. *)
Lemma codec_round_trip_fails :
  (Documents.resultsInJSONFormat "[1, 2]" = Normal [JArr [JNum 1; JNum 2]] /\
   Documents.documentsInJSONLFormat (Documents.AnArray [JArr [JNum 1; JNum 2]]) = "[1,2]") /\
  (Documents.documentsInJSONLFormat (Documents.AnArray []) = "" /\
   exists message, Documents.resultsInJSONFormat "" = Throw (SyntaxError message)) /\
  ~ ((forall (text : string) (results : list value),
        Documents.resultsInJSONFormat text = Normal results ->
        Documents.documentsInJSONLFormat (Documents.AnArray results) = text) /\
     (forall records : list value,
        Documents.resultsInJSONFormat
          (Documents.documentsInJSONLFormat (Documents.AnArray records))
        = Normal records)).
Proof.
  split; [split; vm_compute; reflexivity|].
  split; [split; [reflexivity | eexists; vm_compute; reflexivity]|].
  intros [_ Hdecode]. specialize (Hdecode []). vm_compute in Hdecode. discriminate.
Qed.

(** C4 as stated does not hold.  The texts [x], line feed, [1] and [1],
    line feed, [x] are rejected at their first and at their second line,
    and with the same error: nothing in it tells the two lines apart. *)
Lemma decode_error_names_no_line :
  let text0 := "x" +:+ newline +:+ "1" in
  let text1 := "1" +:+ newline +:+ "x" in
  first_rejected (split_lines text0) = Some 0 /\
  first_rejected (split_lines text1) = Some 1 /\
  (exists e, Documents.resultsInJSONFormat text0 = Throw e /\
             Documents.resultsInJSONFormat text1 = Throw e) /\
  ~ exists index_of : exn -> nat,
      forall (text : string) (e : exn),
        Documents.resultsInJSONFormat text = Throw e ->
        first_rejected (split_lines text) = Some (index_of e).
Proof.
  intros text0 text1.
  split; [vm_compute; reflexivity|]. split; [vm_compute; reflexivity|].
  assert (H0 : Documents.resultsInJSONFormat text0
               = Throw (SyntaxError "Unexpected token or end of JSON input: x"))
    by (vm_compute; reflexivity).
  assert (H1 : Documents.resultsInJSONFormat text1
               = Throw (SyntaxError "Unexpected token or end of JSON input: x"))
    by (vm_compute; reflexivity).
  split; [eauto|].
  intros (index_of & Hindex).
  pose proof (Hindex _ _ H0) as E0. pose proof (Hindex _ _ H1) as E1.
  vm_compute in E0, E1. congruence.
Qed.

(** Outside the per-record results.  A line [null] is no
    [ImportResponse]; it decodes to [null], whose [success] cannot be
    read, and the import rejects with the [TypeError] of that read: with
    nothing failed it does not resolve, and with a failure beside the
    [null] it does not reject with an [ImportError]. *)
Lemma import_null_line :
  (Documents.resultsInJSONFormat "null" = Normal [JNull] /\
   Forall (fun r => has_success_false r = false) [JNull] /\
   fst (Documents.import (answering "null") (Documents.AnArray [record_A]) None a_world)
   = Returned (Rejected (TypeError "Cannot read properties of null (reading 'success')"))) /\
  (Documents.resultsInJSONFormat null_then_failure = Normal [JNull; failure_line record_A] /\
   Exists (fun r => has_success_false r = true) [JNull; failure_line record_A] /\
   fst (Documents.import (answering null_then_failure) (Documents.AnArray [record_B; record_A])
          None a_world)
   = Returned (Rejected (TypeError "Cannot read properties of null (reading 'success')"))).
Proof.
  split; (split; [vm_compute; reflexivity|]; split; [|vm_compute; reflexivity]).
  - repeat constructor.
  - apply Exists_cons_tl, Exists_cons_hd. reflexivity.
Qed.

(** ** The reference host *)

Import RefJSON.



Lemma single_line_app (a b : string) :
  single_line (a +:+ b) = single_line a && single_line b.
Proof.
  induction a as [|c a IH]; [reflexivity|].
  change (String c a +:+ b) with (String c (a +:+ b)).
  cbn [single_line]. rewrite IH. apply andb_assoc.
Qed.

Lemma single_line_digits (d : Decimal.uint) : single_line (digits_of_uint d) = true.
Proof. induction d; simpl; auto. Qed.

Lemma single_line_Number_toString (n : Z) : single_line (Number_toString n) = true.
Proof. destruct n; simpl; auto using single_line_digits. Qed.

Lemma single_line_quote_char (c : ascii) : single_line (RefJSON.quote_char c) = true.
Proof. destruct c as [[] [] [] [] [] [] [] []]; reflexivity. Qed.

Lemma single_line_quote (s : string) : single_line (RefJSON.quote s) = true.
Proof.
  unfold RefJSON.quote. cbn [single_line]. rewrite single_line_app.
  assert (H : single_line (RefJSON.quote_chars s) = true).
  { induction s as [|c s IH]; [reflexivity|].
    cbn [RefJSON.quote_chars]. by rewrite single_line_app, single_line_quote_char, IH. }
  rewrite H. reflexivity.
Qed.

Lemma single_line_commas (a : list string) :
  Forall (fun x => single_line x = true) a -> single_line (RefJSON.commas a) = true.
Proof.
  induction 1 as [|x a Hx Ha IH]; [reflexivity|].
  destruct a as [|y a]; [exact Hx|].
  change (RefJSON.commas (x :: y :: a)) with (x +:+ "," +:+ RefJSON.commas (y :: a)).
  rewrite !single_line_app, Hx, IH. reflexivity.
Qed.

(** [JSON.stringify] writes on one line. *)
Lemma stringify_single_line (v : value) : single_line (RefJSON.stringify v) = true.
Proof.
  induction v as [|[]| | |elems IH|props IH] using value_nested_ind;
    try reflexivity.
  - apply single_line_Number_toString.
  - apply single_line_quote.
  - cbn [RefJSON.stringify]. rewrite !single_line_app.
    rewrite single_line_commas; [reflexivity|].
    apply Forall_map. exact IH. 
  - cbn [RefJSON.stringify]. rewrite !single_line_app.
    rewrite single_line_commas; [reflexivity|].
    apply Forall_map. eapply Forall_impl; [exact IH|].
    intros [k v] Hv. cbn [fst snd] in *. rewrite !single_line_app, single_line_quote, Hv. reflexivity.
Qed.

Lemma parse_chars_quote_char (c : ascii) (s r rest : string) :
  parse_chars s = Some (r, rest) ->
  parse_chars (quote_char c +:+ s) = Some (String c r, rest).
Proof.
  intros Hs.
  destruct c as [[] [] [] [] [] [] [] []];
    match goal with
    | |- context [quote_char ?c] =>
        let q := eval vm_compute in (quote_char c) in change (quote_char c) with q
    end;
    lazy beta iota zeta delta [String.append]; cbn; try (rewrite Hs; reflexivity).

Qed.

Lemma parse_chars_quote_chars (s rest : string) :
  parse_chars (quote_chars s +:+ String DQUOTE rest) = Some (s, rest).
Proof.
  induction s as [|c s IH]; [reflexivity|].
  cbn [quote_chars]. rewrite append_assoc.
  by apply parse_chars_quote_char.
Qed.

Lemma ends_value_number (rest : string) : ends_value rest = true -> ends_number rest = true.
Proof.
  destruct rest as [|c rest]; [reflexivity|].
  cbn [ends_value]. intros H.
  apply orb_true_iff in H as [H|H]; [apply orb_true_iff in H as [H|H]|];
    apply Ascii.eqb_eq in H; subst c; reflexivity.
Qed.

Lemma parse_digits_not_digit (acc : N) (rest : string) :
  ends_number rest = true -> parse_digits acc rest = (acc, rest).
Proof.
  destruct rest as [|c rest]; [reflexivity|].
  cbn [ends_number parse_digits]. unfold is_digit.
  destruct (digit_value c); [discriminate | reflexivity].
Qed.

Lemma parse_digits_uint (d : Decimal.uint) (acc : N) (rest : string) :
  ends_number rest = true ->
  parse_digits acc (digits_of_uint d +:+ rest) = (digits_value d acc, rest).
Proof.
  intros Hrest. revert acc.
  induction d as [|d IH|d IH|d IH|d IH|d IH|d IH|d IH|d IH|d IH|d IH]; intros acc;
    [by apply parse_digits_not_digit | ..];
    cbn [digits_of_uint digits_value];
    match goal with
    | |- parse_digits _ (String ?c ?s +:+ _) = _ =>
        change (String c s +:+ rest) with (String c (s +:+ rest))
    end;
    cbn [parse_digits]; 
    match goal with
    | |- context [digit_value ?c] =>
        let v := eval vm_compute in (digit_value c) in change (digit_value c) with v
    end; cbv iota; apply IH.
Qed.

Lemma digits_value_pos (d : Decimal.uint) (acc : positive) :
  digits_value d (Npos acc) = Npos (Pos.of_uint_acc d acc).
Proof.
  revert acc. induction d; intros acc; cbn [digits_value Pos.of_uint_acc];
    [reflexivity | ..];
    match goal with
    | |- digits_value _ ?a = _ =>
        match goal with
        | |- _ = Npos (Pos.of_uint_acc _ ?b) =>
            replace a with (Npos b) by (simpl; lia)
        end
    end; auto.
Qed.

Lemma nzhead_not_D0 (d l : Decimal.uint) : Decimal.nzhead d <> Decimal.D0 l.
Proof. induction d; simpl; try discriminate. exact IHd. Qed.

Lemma to_uint_leading (p : positive) :
  match Pos.to_uint p with
  | Decimal.Nil | Decimal.D0 _ => False
  | _ => True
  end.
Proof.
  pose proof (DecimalPos.Unsigned.to_of (Pos.to_uint p)) as Hnorm.
  rewrite DecimalPos.Unsigned.of_to in Hnorm. cbn [N.to_uint] in Hnorm.
  pose proof (DecimalPos.Unsigned.to_uint_nonzero p) as Hnz.
  unfold Decimal.unorm in Hnorm.
  destruct (Decimal.nzhead (Pos.to_uint p)) eqn:E;
    [congruence | destruct (nzhead_not_D0 _ _ E) | rewrite Hnorm; exact I ..].
Qed.

Lemma ends_number_no_fraction (rest : string) :
  ends_number rest = true -> starts_fraction_or_exponent rest = false.
Proof.
  destruct rest as [|c rest]; [reflexivity|].
  cbn [ends_number]. intros H. apply andb_true_iff in H as [_ H].
  by apply negb_true_iff in H.
Qed.

Lemma parse_int_pos (p : positive) (rest : string) :
  ends_number rest = true ->
  parse_int (digits_of_uint (Pos.to_uint p) +:+ rest) = Some (Npos p, rest).
Proof.
  intros Hrest.
  pose proof (DecimalPos.Unsigned.of_to p) as Hp.
  pose proof (to_uint_leading p) as Hlead.
  destruct (Pos.to_uint p) as [|d|d|d|d|d|d|d|d|d|d]; try contradiction;
    cbn [Pos.of_uint] in Hp; injection Hp as Hp;
    cbn [digits_of_uint];
    match goal with
    | |- parse_int (String ?c ?s +:+ _) = _ =>
        change (String c s +:+ rest) with (String c (s +:+ rest))
    end;
    cbn [parse_int];
    match goal with
    | |- context [digit_value ?c] =>
        let v := eval vm_compute in (digit_value c) in change (digit_value c) with v
    end; cbv iota;
    rewrite (parse_digits_uint d _ rest Hrest), (ends_number_no_fraction rest Hrest);
    rewrite digits_value_pos, Hp; reflexivity.
Qed.

Lemma parse_number_toString (n : Z) (rest : string) :
  ends_number rest = true ->
  parse_number (Number_toString n +:+ rest) = Some (n, rest).
Proof.
  intros Hrest. destruct n as [|p|p].
  - change (Number_toString 0 +:+ rest) with (String "0" rest).
    cbn. by rewrite (ends_number_no_fraction rest Hrest).
  - pose proof (to_uint_leading p) as Hlead.
    pose proof (parse_int_pos p rest Hrest) as Hint.
    cbn [Number_toString].
    destruct (Pos.to_uint p) as [|d|d|d|d|d|d|d|d|d|d]; try contradiction;
      cbn [digits_of_uint] in *;
      match goal with
      | |- parse_number (String ?c ?s +:+ _) = _ =>
          change (String c s +:+ rest) with (String c (s +:+ rest)) in *
      end;
      unfold parse_number; cbv iota; rewrite Hint; reflexivity.
  - cbn [Number_toString].
    change (String "-" (digits_of_uint (Pos.to_uint p)) +:+ rest)
      with (String "-" (digits_of_uint (Pos.to_uint p) +:+ rest)).
    unfold parse_number. cbv iota. rewrite (parse_int_pos p rest Hrest). reflexivity.
Qed.

Lemma parse_elements_S (fuel : nat) (s : string) :
  parse_elements (S fuel) s
  = '(v, rest) ← parse_value fuel s;
    match skip_ws rest with
    | String "," rest' =>
        '(vs, rest'') ← parse_elements fuel rest'; Some (v :: vs, rest'')
    | String "]" rest' => Some ([v], rest')
    | _ => None
    end.
Proof. reflexivity. Qed.

Lemma parse_members_S (fuel : nat) (acc : list (string * value)) (s1 : string) :
  parse_members (S fuel) acc (String DQUOTE s1)
  = '(k, s2) ← parse_chars s1;
    match skip_ws s2 with
    | String ":" s3 =>
        '(v, s4) ← parse_value fuel s3;
        match skip_ws s4 with
        | String "," s5 => parse_members fuel (define_property k v acc) s5
        | String "}" s5 => Some (define_property k v acc, s5)
        | _ => None
        end
    | _ => None
    end.
Proof. reflexivity. Qed.

Lemma parse_value_number (fuel : nat) (c : ascii) (s : string) :
  starts_number c = true ->
  parse_value (S fuel) (String c s)
  = '(n, rest) ← parse_number (String c s); Some (JNum n, rest).
Proof.
  destruct c as [[] [] [] [] [] [] [] []]; intros H;
    first [reflexivity | vm_compute in H; discriminate].
Qed.

Lemma parse_value_string (fuel : nat) (s : string) :
  parse_value (S fuel) (String DQUOTE s)
  = '(str, rest) ← parse_chars s; Some (JStr str, rest).
Proof. reflexivity. Qed.

Lemma parse_value_array (fuel : nat) (c : ascii) (s : string) :
  starts_value c = true ->
  parse_value (S fuel) (String "[" (String c s))
  = '(elems, rest) ← parse_elements fuel (String c s); Some (JArr elems, rest).
Proof.
  destruct c as [[] [] [] [] [] [] [] []]; intros H;
    first [reflexivity | vm_compute in H; discriminate].
Qed.

Lemma parse_value_object (fuel : nat) (s : string) :
  parse_value (S fuel) (String "{" (String DQUOTE s))
  = '(props, rest) ← parse_members fuel [] (String DQUOTE s); Some (JObj props, rest).
Proof. reflexivity. Qed.

Lemma Number_toString_first (n : Z) :
  exists c s, Number_toString n = String c s /\ starts_number c = true.
Proof.
  destruct n as [|p|p]; cbn [Number_toString]; [by eexists _, _ | | by eexists _, _].
  pose proof (to_uint_leading p) as Hlead.
  destruct (Pos.to_uint p); try contradiction; by eexists _, _.
Qed.

Lemma starts_number_value (c : ascii) : starts_number c = true -> starts_value c = true.
Proof. unfold starts_value. by intros ->. Qed.

Lemma stringify_first (v : value) :
  exists c s, stringify v = String c s /\ starts_value c = true.
Proof.
  destruct v as [|[]|n|s|elems|props]; try (by eexists _, _).
  destruct (Number_toString_first n) as (c & s & E & Hc).
  exists c, s. split; [exact E | by apply starts_number_value].
Qed.

Lemma commas_cons (x : string) (a : list string) :
  a <> [] -> commas (x :: a) = x +:+ "," +:+ commas a.
Proof. destruct a; [congruence | reflexivity]. Qed.

Lemma skip_ws_start (c : ascii) (s : string) :
  is_ws c = false -> skip_ws (String c s) = String c s.
Proof. intros H. cbn [skip_ws]. by rewrite H. Qed.

Lemma parse_elements_reads_back (elems : list value) :
  Forall reads_back elems -> elems <> [] ->
  forall (fuel : nat) (rest : string),
    fold_right (fun x n => S (weight x + n)) 0 elems <= fuel ->
    parse_elements fuel (commas (map stringify elems) +:+ String "]" rest)
    = Some (elems, rest).
Proof.
  induction 1 as [|x xs Hx Hxs IH]; [congruence|]. intros _ fuel rest Hfuel.
  cbn [fold_right] in Hfuel. destruct fuel as [|fuel]; [lia|].
  rewrite parse_elements_S.
  destruct xs as [|y ys].
  - cbn [commas map].
    rewrite (Hx fuel (String "]" rest)) by (cbn in *; first [lia | reflexivity]).
    reflexivity.
  - change (map stringify (x :: y :: ys)) with (stringify x :: map stringify (y :: ys)).
    rewrite commas_cons by discriminate. rewrite !append_assoc.
    change ("," +:+ commas (map stringify (y :: ys)) +:+ String "]" rest)
      with (String "," (commas (map stringify (y :: ys)) +:+ String "]" rest)).
    rewrite (Hx fuel) by (cbn in *; first [lia | reflexivity]).
    cbn [mbind option_bind]. rewrite skip_ws_start by reflexivity.
    cbv iota.
    rewrite IH by (first [discriminate | cbn in *; lia]).
    reflexivity.
Qed.

Lemma member_eq (k : string) (v : value) (rest : string) :
  member (k, v) +:+ rest
  = String DQUOTE (quote_chars k +:+ String DQUOTE (String ":" (stringify v +:+ rest))).
Proof.
  unfold member, quote. cbn [fst snd].
  change (String DQUOTE (quote_chars k +:+ String DQUOTE "") +:+ ":" +:+ stringify v)
    with (String DQUOTE ((quote_chars k +:+ String DQUOTE "") +:+ ":" +:+ stringify v)).
  change (String DQUOTE ?a +:+ rest) with (String DQUOTE (a +:+ rest)).
  rewrite !append_assoc. reflexivity.
Qed.

Lemma parse_members_reads_back (props : list (string * value)) :
  Forall (fun kv => reads_back (snd kv)) props -> props <> [] ->
  forall (acc : list (string * value)) (fuel : nat) (rest : string),
    fold_right (fun kv n => S (weight (snd kv) + n)) 0 props <= fuel ->
    parse_members fuel acc (commas (map member props) +:+ String "}" rest)
    = Some (fold_left (fun a kv => define_property (fst kv) (snd kv) a) props acc, rest).
Proof.
  induction 1 as [|[k v] ps Hv Hps IH]; [congruence|]. intros _ acc fuel rest Hfuel.
  cbn [fold_right snd] in Hfuel. destruct fuel as [|fuel]; [lia|].
  cbn [snd] in Hv.
  destruct ps as [|kv' ps].
  - cbn [map commas]. rewrite member_eq, parse_members_S, parse_chars_quote_chars.
    cbn [mbind option_bind]. rewrite skip_ws_start by reflexivity. cbv iota.
    rewrite (Hv fuel (String "}" rest)) by (cbn in *; first [lia | reflexivity]).
    reflexivity.
  - change (map member ((k, v) :: kv' :: ps)) with (member (k, v) :: map member (kv' :: ps)).
    rewrite commas_cons by discriminate. rewrite !append_assoc.
    change ("," +:+ commas (map member (kv' :: ps)) +:+ String "}" rest)
      with (String "," (commas (map member (kv' :: ps)) +:+ String "}" rest)).
    rewrite member_eq, parse_members_S, parse_chars_quote_chars.
    cbn [mbind option_bind]. rewrite skip_ws_start by reflexivity. cbv iota.
    rewrite (Hv fuel) by (cbn in *; first [lia | reflexivity]).
    cbn [mbind option_bind]. rewrite skip_ws_start by reflexivity. cbv iota.
    rewrite IH by (first [discriminate | cbn in *; lia]).
    reflexivity.
Qed.

Lemma in_property_order_arr (elems : list value) :
  in_property_order (JArr elems) <-> Forall in_property_order elems.
Proof.
  cbn [in_property_order].
  induction elems as [|x xs IH]; [split; [constructor | done]|].
  rewrite IH. split.
  - intros [Hx Hxs]. by constructor.
  - intros H. by inversion H.
Qed.

Lemma in_property_order_obj (props : list (string * value)) :
  in_property_order (JObj props) <->
  properties_defined_in_order props = props /\
  Forall (fun kv => in_property_order (snd kv)) props.
Proof.
  cbn [in_property_order]. apply and_iff_compat_l.
  induction props as [|kv ps IH]; [split; [constructor | done]|].
  rewrite IH. split.
  - intros [Hx Hxs]. by constructor.
  - intros H. by inversion H.
Qed.

Lemma stringify_reads_back (v : value) : in_property_order v -> reads_back v.
Proof.
  induction v as [|b|n|s|elems IH|props IH] using value_nested_ind;
    intros Hv fuel rest Hfuel Hrest;
    (destruct fuel as [|fuel]; [cbn in Hfuel; lia|]).
  - reflexivity.
  - destruct b; reflexivity.
  - destruct (Number_toString_first n) as (c & s & E & Hc).
    cbn [stringify]. pose proof (parse_number_toString n rest (ends_value_number rest Hrest)) as Hn.
    rewrite E in *. change (String c s +:+ rest) with (String c (s +:+ rest)) in *.
    rewrite parse_value_number by exact Hc. rewrite Hn. reflexivity.
  - cbn [stringify]. unfold quote.
    change (String DQUOTE (quote_chars s +:+ String DQUOTE "") +:+ rest)
      with (String DQUOTE ((quote_chars s +:+ String DQUOTE "") +:+ rest)).
    rewrite append_assoc. change (String DQUOTE "" +:+ rest) with (String DQUOTE rest).
    rewrite parse_value_string, parse_chars_quote_chars. reflexivity.
  - apply in_property_order_arr in Hv.
    change (stringify (JArr elems) +:+ rest)
      with (String "[" ((commas (map stringify elems) +:+ "]") +:+ rest)).
    rewrite append_assoc. change ("]" +:+ rest) with (String "]" rest).
    destruct elems as [|x xs]; [reflexivity|].
    assert (Hreads : Forall reads_back (x :: xs)).
    { rewrite List.Forall_forall in *. intros y Hy. apply IH; [exact Hy | by apply Hv]. }
    pose proof (parse_elements_reads_back (x :: xs) Hreads ltac:(discriminate) fuel rest) as He.
    destruct (stringify_first x) as (c & s & E & Hc).
    assert (Ec : exists s', commas (map stringify (x :: xs)) +:+ String "]" rest = String c s').
    { destruct xs; cbn [map commas]; rewrite E; by eexists. }
    destruct Ec as (s' & Ec). rewrite Ec in *.
    rewrite parse_value_array by exact Hc.
    rewrite He by (cbn in *; lia). reflexivity.
  - apply in_property_order_obj in Hv as [Horder Hv].
    change (stringify (JObj props) +:+ rest)
      with (String "{" ((commas (map member props) +:+ "}") +:+ rest)).
    rewrite append_assoc. change ("}" +:+ rest) with (String "}" rest).
    destruct props as [|[k x] ps]; [reflexivity|].
    assert (Hreads : Forall (fun kv => reads_back (snd kv)) ((k, x) :: ps)).
    { rewrite List.Forall_forall in *. intros y Hy. apply IH; [exact Hy | by apply Hv]. }
    pose proof (parse_members_reads_back ((k, x) :: ps) Hreads ltac:(discriminate) [] fuel rest)
      as Hm.
    assert (Ec : exists s', commas (map member ((k, x) :: ps)) +:+ String "}" rest
                            = String DQUOTE s').
    { destruct ps; cbn [map commas]; [|rewrite append_assoc]; rewrite member_eq; by eexists. }
    destruct Ec as (s' & Ec). rewrite Ec in *.
    rewrite parse_value_object.
    rewrite Hm by (cbn in *; lia).
    fold (properties_defined_in_order ((k, x) :: ps)). rewrite Horder. reflexivity.
Qed.

Lemma append_empty (s : string) : s +:+ "" = s.
Proof.
  induction s as [|c s IH]; [reflexivity|].
  change (String c (s +:+ "") = String c s). f_equal. exact IH.
Qed.

Lemma length_append (a b : string) :
  String.length (a +:+ b) = String.length a + String.length b.
Proof.
  induction a as [|c a IH]; [reflexivity|].
  change (S (String.length (a +:+ b)) = S (String.length a + String.length b)).
  f_equal. exact IH.
Qed.

Lemma weight_commas {A} (f : A -> string) (w : A -> nat) (l : list A) :
  Forall (fun x => w x <= String.length (f x)) l ->
  fold_right (fun x n => S (w x + n)) 0 l <= String.length (commas (map f l)) + 1.
Proof.
  induction 1 as [|x xs Hx Hxs IH]; [cbn; lia|].
  destruct xs as [|y ys].
  - cbn in *. lia.
  - change (map f (x :: y :: ys)) with (f x :: map f (y :: ys)).
    rewrite commas_cons by discriminate.
    rewrite !length_append. cbn [fold_right] in *. cbn [String.length]. lia.
Qed.

Lemma weight_stringify (v : value) : weight v <= String.length (stringify v).
Proof.
  induction v as [|b|n|s|elems IH|props IH] using value_nested_ind.
  - cbn. lia.
  - destruct b; cbn; lia.
  - destruct (Number_toString_first n) as (c & s & E & _).
    cbn [stringify weight]. rewrite E. cbn. lia.
  - cbn. lia.
  - cbn [weight]. change (stringify (JArr elems))
      with (String "[" (commas (map stringify elems) +:+ "]")).
    cbn [String.length]. rewrite length_append.
    pose proof (weight_commas stringify weight elems IH). cbn [String.length]. lia.
  - cbn [weight]. change (stringify (JObj props))
      with (String "{" (commas (map member props) +:+ "}")).
    cbn [String.length]. rewrite length_append.
    assert (H : Forall (fun kv => weight (snd kv) <= String.length (member kv)) props).
    { eapply Forall_impl; [exact IH|]. intros [k x] Hx. unfold member.
      rewrite !length_append. cbn [snd] in *. lia. }
    pose proof (weight_commas member (fun kv => weight (snd kv)) props H).
    cbn [String.length]. lia.
Qed.

(** In the reference host, [JSON.parse] reads back what [JSON.stringify]
    writes, for every value whose objects have their properties in
    property order; and [JSON.stringify] writes on one line. *)
Lemma parse_stringify (v : value) :
  in_property_order v -> RefJSON.parse (RefJSON.stringify v) = inr v.
Proof.
  intros Hv. unfold parse.
  pose proof (stringify_reads_back v Hv
                (2 * String.length (stringify v) + 2) "") as Hread.
  rewrite append_empty in Hread. rewrite Hread; [reflexivity | | reflexivity].
  pose proof (weight_stringify v). lia.
Qed.

Lemma own_property_None (k : string) (props : list (string * value)) :
  k ∉ map fst props -> own_property k props = None.
Proof.
  induction props as [|[k' v] ps IH]; [reflexivity|].
  cbn [map fst own_property]. intros Hk.
  apply not_elem_of_cons in Hk as [Hne Hk].
  destruct (String.eqb k k') eqn:E; [apply String.eqb_eq in E; congruence|].
  by apply IH.
Qed.

Lemma define_named_properties (props acc : list (string * value)) :
  NoDup (map fst acc ++ map fst props) ->
  Forall (fun kv => array_index (fst kv) = None) props ->
  fold_left (fun a kv => define_property (fst kv) (snd kv) a) props acc = acc ++ props.
Proof.
  revert acc. induction props as [|[k v] ps IH]; intros acc Hnodup Hnamed.
  - by rewrite app_nil_r.
  - inversion Hnamed as [|? ? Hk Hps]; subst. cbn [fst snd fold_left map] in *.
    assert (Hfresh : k ∉ map fst acc).
    { apply NoDup_app in Hnodup as (_ & Hdisj & _).
      intros Hin. apply (Hdisj k Hin). left. }
    unfold define_property at 2. rewrite (own_property_None k acc Hfresh), Hk.
    rewrite IH; [by rewrite <- app_assoc | | exact Hps].
    rewrite map_app, <- app_assoc. exact Hnodup.
Qed.

(** Distinct keys none of which is an array index are in property order. *)
Lemma named_properties_in_order (props : list (string * value)) :
  NoDup (map fst props) ->
  Forall (fun kv => array_index (fst kv) = None) props ->
  properties_defined_in_order props = props.
Proof.
  intros Hnodup Hnamed. unfold properties_defined_in_order.
  by rewrite define_named_properties.
Qed.


(** In the reference host every value in property order is written on one
    line and read back as it was. *)
Lemma reference_host_round_trip (v : value) :
  in_property_order v ->
  single_line (JSON_stringify v) = true /\ JSON_parse_text (JSON_stringify v) = inr v.
Proof.
  intros Hv. split; [apply stringify_single_line | by apply parse_stringify].
Qed.

(** So, in the reference host, a sequence of at least one record in
    property order is decoded from its encoding as it was. *)
Lemma reference_host_decodes_encoded (records : list value) :
  records <> [] -> Forall in_property_order records ->
  Documents.resultsInJSONFormat
    (Documents.documentsInJSONLFormat (Documents.AnArray records))
  = Normal records.
Proof.
  intros Hne Hrecords.
  apply (decode_encoded records Hne).
  eapply Forall_impl; [exact Hrecords|]. apply reference_host_round_trip.
Qed.

(** And the lines of the body of an import are the encodings of its
    records, one line for each. *)
Lemma reference_host_body_lines (records : list value) :
  records <> [] ->
  split_lines (Documents.documentsInJSONLFormat (Documents.AnArray records))
  = map RefJSON.stringify records.
Proof.
  intros Hne. unfold Documents.documentsInJSONLFormat.
  apply split_join_lines.
  - destruct records; [congruence | discriminate].
  - apply forallb_forall. intros line Hline.
    apply in_map_iff in Hline as (r & <- & _). apply stringify_single_line.
Qed.

(** ** What a structured import settles with *)

(** A list of lines either decodes, each line to its value, or has a
    first line that is rejected, and then decoding throws what that line
    made [JSON.parse] throw. *)
Lemma Array_map_JSON_parse `{JSONHost} (lines : list string) :
  (first_rejected lines = None /\
   exists results,
     Array_map JSON_parse lines = Normal results /\
     Forall2 (fun line r => JSON_parse_text line = inr r) lines results) \/
  (exists i line message,
     first_rejected lines = Some i /\ lines !! i = Some line /\
     JSON_parse_text line = inl message /\
     Array_map JSON_parse lines = Throw (SyntaxError message)).
Proof.
  induction lines as [|line lines IH]; cbn [first_rejected].
  - left. split; [reflexivity|]. exists []. split; [reflexivity | constructor].
  - rewrite Array_map_cons, JSON_parse_eq.
    destruct (JSON_parse_text line) as [message|r] eqn:Hline.
    + right. exists 0, line, message. repeat split; auto.
    + cbn [mbind completion_bind].
      destruct IH as [(-> & results & -> & Hall)|(i & line' & message & -> & Hi & Hrej & ->)].
      * left. split; [reflexivity|]. exists (r :: results).
        split; [reflexivity | by constructor].
      * right. exists (S i), line', message. repeat split; auto.
Qed.

Lemma failedItems_filter (results failed : list value) :
  Documents.failedItems results = Normal failed ->
  failed = List.filter has_success_false results.
Proof.
  intros Hfailed.
  pose proof (failedItems_Normal results failed Hfailed) as Hoc.
  rewrite (failedItems_coercible results Hoc) in Hfailed. congruence.
Qed.

(** The filter throws nothing but the [TypeError] of reading [null]. *)
Lemma failedItems_Throw (results : list value) (e : exn) :
  Documents.failedItems results = Throw e -> exists message, e = TypeError message.
Proof.
  unfold Documents.failedItems.
  induction results as [|r results IH]; [discriminate|].
  cbn [Array_filter].
  destruct (Documents.is_failed r) as [b|e'] eqn:Hr.
  - cbn [mbind completion_bind].
    destruct (Array_filter Documents.is_failed results) as [fs|e'']; [discriminate|].
    cbn [mbind completion_bind]. intros [= <-]. by apply IH.
  - cbn [mbind completion_bind]. intros [= <-].
    destruct r; try discriminate. injection Hr as <-. by eexists.
Qed.

(** The ways the text of a response can come out of [import_results]. *)
Lemma import_results_cases `{JSONHost} (documents : list value) (text : string) :
  (exists results,
     Documents.resultsInJSONFormat text = Normal results /\
     existsb has_success_false results = false /\
     Documents.import_results (Documents.AnArray documents) text
     = Normal (Documents.AnArray results)) \/
  (exists results,
     Documents.resultsInJSONFormat text = Normal results /\
     existsb has_success_false results = true /\
     Documents.import_results (Documents.AnArray documents) text
     = Throw (ImportError
                (import_summary
                   (length (List.filter (fun r => negb (has_success_false r)) results))
                   (length (List.filter has_success_false results)))
                results)) \/
  (exists message,
     Documents.import_results (Documents.AnArray documents) text
     = Throw (SyntaxError message)) \/
  (exists message,
     Documents.import_results (Documents.AnArray documents) text
     = Throw (TypeError message)).
Proof.
  unfold Documents.import_results.
  unfold Documents.resultsInJSONFormat.
  destruct (Array_map_JSON_parse (split_lines text))
    as [(_ & results & -> & _)|(i & line & message & _ & _ & _ & ->)].
  2:{ right. right. left. by exists message. }
  - cbn [mbind completion_bind].
    destruct (forallb ObjectCoercible results) eqn:Hoc.
    + rewrite (failedItems_coercible results Hoc). cbn [mbind completion_bind].
      rewrite filter_nil_existsb, import_error_message_summary.
      destruct (existsb has_success_false results) eqn:Hex.
      * right. left. by exists results.
      * left. by exists results.
    + right. right. right.
      destruct (Documents.failedItems results) as [failed|e] eqn:Hfailed.
      * rewrite (failedItems_Normal results failed Hfailed) in Hoc. discriminate.
      * destruct (failedItems_Throw results e Hfailed) as (message & ->).
        by exists message.
Qed.

(** The request [import] makes, read off the trace it leaves. *)
Lemma import_request_sent `{JSONHost} (this : Documents.instance)
    (documents : Documents.string_or_array) (options : option ref) (w : world) (rq : request) :
  requests (snd (Documents.import this documents options w)) = requests w ++ [rq] ->
  rq = {| method := "post"; endpoint := Documents.endpointPath this (Some "import");
          queryParameters := passed_options options w;
          bodyParameters := Some (JStr (Documents.documentsInJSONLFormat documents));
          additionalHeaders := [("Content-Type", "text/plain")] |}.
Proof.
  rewrite import_run. cbn [snd requests]. intros Hsent.
  apply app_inv_head in Hsent. congruence.
Qed.

(** [import] in two facts: the request it leaves, and what it settles
    with. *)
Lemma import_settles `{JSONHost} (this : Documents.instance)
    (documents : Documents.string_or_array) (options : option ref) (w : world) :
  exists rq : request,
    requests (snd (Documents.import this documents options w)) = requests w ++ [rq] /\
    fst (Documents.import this documents options w)
    = Returned
        match response_text (Documents.apiCall this) (requests w) rq with
        | inr text => Documents.async (Documents.import_results documents text)
        | inl e => Rejected (ApiCallError e)
        end.
Proof. eexists. rewrite import_run. split; reflexivity. Qed.

(** X1.  When a structured import resolves, what it resolves to is the
    array of the values of the lines of the response, and none of them has
    [success] equal to [false]. *)
Theorem resolved_import_has_no_failure (host : JSONHost) (this : Documents.instance)
    (documents : list value) (options : option ref) (w : world)
    (x : Documents.string_or_array) :
  fst (Documents.import this (Documents.AnArray documents) options w)
  = Returned (Fulfilled x) ->
  exists (rq : request) (text : string) (results : list value),
    requests (snd (Documents.import this (Documents.AnArray documents) options w))
    = requests w ++ [rq] /\
    response_text (Documents.apiCall this) (requests w) rq = inr text /\
    x = Documents.AnArray results /\
    Documents.resultsInJSONFormat text = Normal results /\
    Forall (fun r => has_success_false r = false) results.
Proof.
  intros Hout.
  destruct (import_settles this (Documents.AnArray documents) options w)
    as (rq & Hsent & Hfst).
  rewrite Hfst in Hout. exists rq.
  destruct (response_text _ _ rq) as [e|text] eqn:Hanswer; [discriminate|].
  exists text.
  destruct (import_results_cases documents text)
    as [(results & Hdecode & Hnone & E)|[(results & _ & _ & E)|[(m & E)|(m & E)]]];
    rewrite E in Hout; try discriminate.
  injection Hout as <-. exists results. repeat split; auto.
  apply List.Forall_forall. intros r Hr.
  destruct (has_success_false r) eqn:Hfail; [|reflexivity].
  assert (existsb has_success_false results = true)
    by (apply existsb_exists; eauto).
  congruence.
Qed.

Lemma resolved_import_has_no_failure_witness :
  let three := [success_line; success_line; success_line] in
  let call := Documents.import (answering (join_lines (map RefJSON.stringify three)))
                (Documents.AnArray [record_A; record_B; record_C]) None a_world in
  fst call = Returned (Fulfilled (Documents.AnArray three)) /\
  exists (rq : request) (text : string) (results : list value),
    requests (snd call) = requests a_world ++ [rq] /\
    response_text (Documents.apiCall (answering (join_lines (map RefJSON.stringify three))))
      (requests a_world) rq = inr text /\
    Documents.AnArray three = Documents.AnArray results /\
    Documents.resultsInJSONFormat text = Normal results /\
    Forall (fun r => has_success_false r = false) results.
Proof.
  intros three call.
  assert (Hout : fst call = Returned (Fulfilled (Documents.AnArray three)))
    by (vm_compute; reflexivity).
  split; [exact Hout|].
  exact (resolved_import_has_no_failure RefJSON.host _ _ None a_world _ Hout).
Defined.

(** X2.  An [ImportError] comes out of a structured import only, and then
    it holds every result of the response, in order, at least one of them
    a failure, under a message that counts the two kinds. *)
Theorem import_error_carries_every_result (host : JSONHost) (this : Documents.instance)
    (documents : Documents.string_or_array) (options : option ref) (w : world)
    (message : string) (importResults : list value) :
  fst (Documents.import this documents options w)
  = Returned (Rejected (ImportError message importResults)) ->
  exists (a : list value) (rq : request) (text : string),
    documents = Documents.AnArray a /\
    requests (snd (Documents.import this documents options w)) = requests w ++ [rq] /\
    response_text (Documents.apiCall this) (requests w) rq = inr text /\
    Documents.resultsInJSONFormat text = Normal importResults /\
    Exists (fun r => has_success_false r = true) importResults /\
    message
    = import_summary
        (length (List.filter (fun r => negb (has_success_false r)) importResults))
        (length (List.filter has_success_false importResults)) /\
    length (List.filter (fun r => negb (has_success_false r)) importResults)
    + length (List.filter has_success_false importResults)
    = length importResults.
Proof.
  intros Hout.
  destruct (import_settles this documents options w) as (rq & Hsent & Hfst).
  rewrite Hfst in Hout.
  destruct (response_text _ _ rq) as [e|text] eqn:Hanswer; [discriminate|].
  destruct documents as [s|a]; [discriminate|].
  exists a, rq, text.
  destruct (import_results_cases a text)
    as [(results & _ & _ & E)|[(results & Hdecode & Hsome & E)|[(m & E)|(m & E)]]];
    rewrite E in Hout; try discriminate.
  injection Hout as Hm Hr. subst message importResults.
  repeat split; auto using filter_lengths.
  apply existsb_exists in Hsome as (r & Hin & Hr). apply List.Exists_exists. eauto.
Qed.

Lemma import_error_carries_every_result_witness :
  let call := Documents.import (answering abc_response)
                (Documents.AnArray [record_A; record_B; record_C]) None a_world in
  let results := [success_line; failure_line record_B; success_line] in
  fst call = Returned (Rejected (ImportError (import_summary 2 1) results)) /\
  exists (a : list value) (rq : request) (text : string),
    Documents.AnArray [record_A; record_B; record_C] = Documents.AnArray a /\
    requests (snd call) = requests a_world ++ [rq] /\
    response_text (Documents.apiCall (answering abc_response)) (requests a_world) rq
    = inr text /\
    Documents.resultsInJSONFormat text = Normal results /\
    Exists (fun r => has_success_false r = true) results /\
    import_summary 2 1
    = import_summary
        (length (List.filter (fun r => negb (has_success_false r)) results))
        (length (List.filter has_success_false results)) /\
    length (List.filter (fun r => negb (has_success_false r)) results)
    + length (List.filter has_success_false results)
    = length results.
Proof.
  intros call results.
  assert (Hout : fst call
                 = Returned (Rejected (ImportError (import_summary 2 1) results)))
    by (vm_compute; reflexivity).
  split; [exact Hout|].
  exact (import_error_carries_every_result RefJSON.host _ _ None a_world _ _ Hout).
Defined.

(** ** How many results, and from what *)

Lemma split_lines_length (s : string) : length (split_lines s) = S (line_feeds s).
Proof.
  induction s as [|c s IH]; [reflexivity|].
  cbn [split_lines line_feeds]. destruct (Ascii.eqb c LF).
  - cbn [length]. by rewrite IH.
  - destruct (split_lines s) as [|l ls]; cbn [length] in *; lia.
Qed.

Lemma Array_map_length {A B} (f : A -> completion B) (l : list A) (ys : list B) :
  Array_map f l = Normal ys -> length ys = length l.
Proof.
  revert ys. induction l as [|x l IH]; intros ys; cbn [Array_map].
  - by intros [= <-].
  - destruct (f x) as [y|e]; [|discriminate]. cbn [mbind completion_bind].
    destruct (Array_map f l) as [ys'|e]; [|discriminate].
    cbn [mbind completion_bind]. intros [= <-]. cbn [length]. by rewrite (IH ys').
Qed.

(** X3.  The results of an import, whether it resolves to them or rejects
    with them in an [ImportError], are one more than the line feeds of the
    response: never none, and as many as the documents only if the service
    answers one line for each. *)
Theorem results_are_counted_by_line_feeds (host : JSONHost) (this : Documents.instance)
    (documents : list value) (options : option ref) (w : world)
    (rq : request) (text : string) (results : list value) :
  requests (snd (Documents.import this (Documents.AnArray documents) options w))
  = requests w ++ [rq] ->
  response_text (Documents.apiCall this) (requests w) rq = inr text ->
  (fst (Documents.import this (Documents.AnArray documents) options w)
   = Returned (Fulfilled (Documents.AnArray results)) \/
   exists message,
     fst (Documents.import this (Documents.AnArray documents) options w)
     = Returned (Rejected (ImportError message results))) ->
  length results = S (line_feeds text).
Proof.
  intros Hsent Hanswer Hout.
  pose proof (import_request_sent this _ options w rq Hsent) as Hrq.
  rewrite import_run in Hout. cbn [fst] in Hout. rewrite <- Hrq, Hanswer in Hout.
  assert (Hdecode : Documents.resultsInJSONFormat text = Normal results).
  { destruct (import_results_cases documents text)
      as [(rs & Hd & _ & E)|[(rs & Hd & _ & E)|[(m & E)|(m & E)]]];
      rewrite E in Hout; destruct Hout as [Hout|(message & Hout)];
      try discriminate; injection Hout as <-; try exact Hd.
    subst rs. exact Hd. }
  apply Array_map_length in Hdecode. rewrite Hdecode. apply split_lines_length.
Qed.

Lemma results_are_counted_by_line_feeds_witness :
  let two := [success_line; success_line] in
  let text := join_lines (map RefJSON.stringify two) in
  let call := Documents.import (answering text)
                (Documents.AnArray [record_A; record_B; record_C]) None a_world in
  (requests (snd call) = requests a_world ++ [abc_request] /\
   fst call = Returned (Fulfilled (Documents.AnArray two))) /\
  length two = S (line_feeds text).
Proof.
  intros two text call.
  assert (Hsent : requests (snd call) = requests a_world ++ [abc_request])
    by (vm_compute; reflexivity).
  assert (Hout : fst call = Returned (Fulfilled (Documents.AnArray two)))
    by (vm_compute; reflexivity).
  split; [auto|].
  exact (results_are_counted_by_line_feeds RefJSON.host (answering text)
           [record_A; record_B; record_C] None a_world abc_request text two
           Hsent eq_refl (or_introl Hout)).
Defined.

(** X4.  What a structured import settles with is made from the response
    alone: two imports that get the same response settle the same way,
    whatever documents they sent.  The results are not matched against
    the documents, not even in number. *)
Theorem results_do_not_depend_on_documents (host : JSONHost) (this : Documents.instance)
    (documents documents' : list value) (options options' : option ref) (w w' : world)
    (rq rq' : request) :
  requests (snd (Documents.import this (Documents.AnArray documents) options w))
  = requests w ++ [rq] ->
  requests (snd (Documents.import this (Documents.AnArray documents') options' w'))
  = requests w' ++ [rq'] ->
  response_text (Documents.apiCall this) (requests w) rq
  = response_text (Documents.apiCall this) (requests w') rq' ->
  fst (Documents.import this (Documents.AnArray documents) options w)
  = fst (Documents.import this (Documents.AnArray documents') options' w').
Proof.
  intros Hsent Hsent' Hsame.
  pose proof (import_request_sent this _ options w rq Hsent) as Hrq.
  pose proof (import_request_sent this _ options' w' rq' Hsent') as Hrq'.
  rewrite !import_run. cbn [fst]. rewrite <- Hrq, <- Hrq', Hsame.
  destruct (response_text _ _ rq'); reflexivity.
Qed.

Lemma results_do_not_depend_on_documents_witness :
  let this := answering abc_response in
  let call := Documents.import this (Documents.AnArray [record_A; record_B; record_C])
                None a_world in
  let call' := Documents.import this (Documents.AnArray [record_C]) (Some 0) a_world in
  (exists rq rq',
     requests (snd call) = requests a_world ++ [rq] /\
     requests (snd call') = requests a_world ++ [rq'] /\
     (response_text (Documents.apiCall this) (requests a_world) rq
      = response_text (Documents.apiCall this) (requests a_world) rq')) /\
  fst call = fst call'.
Proof.
  intros this call call'.
  destruct (import_settles this (Documents.AnArray [record_A; record_B; record_C])
              None a_world) as (rq & Hsent & _).
  destruct (import_settles this (Documents.AnArray [record_C]) (Some 0) a_world)
    as (rq' & Hsent' & _).
  split; [exists rq, rq'; repeat split; assumption|].
  exact (results_do_not_depend_on_documents RefJSON.host this _ _ None (Some 0)
           a_world a_world rq rq' Hsent Hsent' eq_refl).
Defined.

(** ** Responses that do not decode *)

Lemma first_rejected_None `{JSONHost} (lines : list string) (line : string) :
  first_rejected lines = None -> In line lines ->
  exists r, JSON_parse_text line = inr r.
Proof.
  induction lines as [|l lines IH]; [intros _ []|].
  cbn [first_rejected]. destruct (JSON_parse_text l) as [m|r] eqn:Hl; [discriminate|].
  destruct (first_rejected lines); [discriminate|].
  intros _ [<-|Hin]; [eauto | by apply IH].
Qed.

(** X5.  If a line of the response is rejected by [JSON.parse], a
    structured import rejects with the [SyntaxError] of the first such
    line.  It does so whatever the other lines say: results that came
    before or after, failures among them, are not reported. *)
Theorem malformed_line_rejects_import (host : JSONHost) (this : Documents.instance)
    (documents : list value) (options : option ref) (w : world)
    (rq : request) (text : string) (i : nat) :
  requests (snd (Documents.import this (Documents.AnArray documents) options w))
  = requests w ++ [rq] ->
  response_text (Documents.apiCall this) (requests w) rq = inr text ->
  first_rejected (split_lines text) = Some i ->
  exists (line message : string),
    split_lines text !! i = Some line /\
    JSON_parse_text line = inl message /\
    fst (Documents.import this (Documents.AnArray documents) options w)
    = Returned (Rejected (SyntaxError message)).
Proof.
  intros Hsent Hanswer Hfirst.
  pose proof (import_request_sent this _ options w rq Hsent) as Hrq.
  rewrite import_run. cbn [fst]. rewrite <- Hrq, Hanswer.
  unfold Documents.import_results, Documents.resultsInJSONFormat.
  destruct (Array_map_JSON_parse (split_lines text))
    as [(Hnone & _)|(j & line & message & Hj & Hline & Hrej & ->)]; [congruence|].
  assert (j = i) as -> by congruence.
  exists line, message. repeat split; assumption.
Qed.

Lemma malformed_line_rejects_import_witness :
  let call := Documents.import (answering garbled_response)
                (Documents.AnArray [record_A; record_B; record_C]) None a_world in
  (requests (snd call) = requests a_world ++ [abc_request] /\
   first_rejected (split_lines garbled_response) = Some 1) /\
  exists (line message : string),
    split_lines garbled_response !! 1 = Some line /\
    JSON_parse_text line = inl message /\
    fst call = Returned (Rejected (SyntaxError message)).
Proof.
  intros call.
  assert (Hsent : requests (snd call) = requests a_world ++ [abc_request])
    by (vm_compute; reflexivity).
  assert (Hfirst : first_rejected (split_lines garbled_response) = Some 1)
    by (vm_compute; reflexivity).
  split; [auto|].
  exact (malformed_line_rejects_import RefJSON.host (answering garbled_response)
           [record_A; record_B; record_C] None a_world abc_request garbled_response 1
           Hsent eq_refl Hfirst).
Defined.

(** A text that ends in a line feed has a last line, and it is empty. *)
Lemma split_lines_trailing (t : string) :
  exists l ls, split_lines (t +:+ newline) = l :: ls ++ [""].
Proof.
  induction t as [|c t (l & ls & IH)]; [by exists "", []|].
  change (String c t +:+ newline) with (String c (t +:+ newline)).
  cbn [split_lines]. rewrite IH. destruct (Ascii.eqb c LF).
  - by exists "", (l :: ls).
  - by exists (String c l), ls.
Qed.

Lemma first_rejected_Some `{JSONHost} (lines : list string) (line message : string) :
  In line lines -> JSON_parse_text line = inl message ->
  exists i, first_rejected lines = Some i.
Proof.
  intros Hin Hrej. destruct (first_rejected lines) as [i|] eqn:Hfirst; [eauto|].
  destruct (first_rejected_None lines line Hfirst Hin) as (r & Hr). congruence.
Qed.

(** X6.  [JSON.parse] rejects the empty text, so a response that is empty,
    or that ends in a line feed and so has an empty last line, makes a
    structured import reject with a [SyntaxError], even if every line
    before the line feed is a success. *)
Theorem trailing_line_feed_rejects_import (host : JSONHost) (this : Documents.instance)
    (documents : list value) (options : option ref) (w : world)
    (rq : request) (text message : string) :
  JSON_parse_text "" = inl message ->
  requests (snd (Documents.import this (Documents.AnArray documents) options w))
  = requests w ++ [rq] ->
  response_text (Documents.apiCall this) (requests w) rq = inr text ->
  text = "" \/ (exists t, text = t +:+ newline) ->
  exists message',
    fst (Documents.import this (Documents.AnArray documents) options w)
    = Returned (Rejected (SyntaxError message')).
Proof.
  intros Hempty Hsent Hanswer Htext.
  pose proof (import_request_sent this _ options w rq Hsent) as Hrq.
  rewrite import_run. cbn [fst]. rewrite <- Hrq, Hanswer.
  unfold Documents.import_results, Documents.resultsInJSONFormat.
  assert (Hin : In "" (split_lines text)).
  { destruct Htext as [->|(t & ->)]; [by left|].
    destruct (split_lines_trailing t) as (l & ls & ->).
    right. apply in_or_app. right. by left. }
  destruct (first_rejected_Some _ _ _ Hin Hempty) as (i & Hfirst).
  destruct (Array_map_JSON_parse (split_lines text))
    as [(Hnone & _)|(j & line & message' & _ & _ & _ & ->)]; [congruence|].
  by exists message'.
Qed.

Lemma trailing_line_feed_rejects_import_witness :
  let this := answering response_with_trailing_line_feed in
  let call := Documents.import this (Documents.AnArray [record_A]) None a_world in
  (exists message rq,
     JSON_parse_text "" = inl message /\
     requests (snd call) = requests a_world ++ [rq] /\
     response_text (Documents.apiCall this) (requests a_world) rq
     = inr (RefJSON.stringify success_line +:+ newline)) /\
  exists message', fst call = Returned (Rejected (SyntaxError message')).
Proof.
  intros this call.
  destruct (import_settles this (Documents.AnArray [record_A]) None a_world)
    as (rq & Hsent & _).
  assert (Hempty : exists message, JSON_parse_text "" = inl message)
    by (vm_compute; eexists; reflexivity).
  destruct Hempty as (message & Hempty).
  split; [exists message, rq; repeat split; assumption|].
  exact (trailing_line_feed_rejects_import RefJSON.host this [record_A] None a_world rq
           (RefJSON.stringify success_line +:+ newline) message Hempty Hsent eq_refl
           (or_intror (ex_intro _ (RefJSON.stringify success_line) eq_refl))).
Defined.

(** ** What every method leaves behind *)

Lemma only_adds_alloc (new : list request) (said : list string) (w w' : world) (o : object) :
  only_adds new said (snd (alloc o w)) w' -> only_adds new said w w'.
Proof.
  intros (Hrq & Hwarn & Hheap). repeat split; auto.
  intros r o' Hr. by apply Hheap, lookup_app_l_Some.
Qed.

Lemma only_adds_default_options (new : list request) (said : list string)
    (options : option ref) (w w' : world) :
  only_adds new said (snd (Documents.default_options options w)) w' ->
  only_adds new said w w'.
Proof. destruct options as [r|]; [auto | apply only_adds_alloc]. Qed.

Lemma create_run (this : Documents.instance) (document : option value)
    (options : option ref) (w : world) :
  ToBoolean document = true ->
  let rq := {| method := "post"; endpoint := Documents.endpointPath this None;
               queryParameters := passed_options options w;
               bodyParameters := document; additionalHeaders := [] |} in
  Documents.create this document options w
  = (Returned (settle (response_data (Documents.apiCall this) (requests w) rq)),
     {| heap := heap (snd (Documents.default_options options w));
        requests := requests w ++ [rq]; warnings := warnings w |}).
Proof.
  intros Htruthy. destruct options as [r|]; unfold Documents.create; run;
    rewrite Htruthy; run; [reflexivity|].
  unfold contents. cbn -[union lookup insert app length singletonM].
  rewrite list_lookup_middle by reflexivity. reflexivity.
Qed.

Lemma one_added_default_options (said : list string) (options : option ref) (w w' : world) :
  (exists rq, only_adds [rq] said (snd (Documents.default_options options w)) w') ->
  exists rq, only_adds [rq] said w w'.
Proof. intros (rq & Hrq). exists rq. by apply (only_adds_default_options _ _ options). Qed.

Lemma only_adds_sent (rq : request) (options : option ref) (w : world) :
  only_adds [rq] [] w
    {| heap := heap (snd (Documents.default_options options w));
       requests := requests w ++ [rq]; warnings := warnings w |}.
Proof.
  apply (only_adds_default_options _ _ options).
  destruct (Documents.default_options options w) as [r w1] eqn:Hd.
  pose proof (default_options_spec options w) as Hs. rewrite Hd in Hs.
  destruct Hs as ((Hrq & Hwarn & _) & _).
  cbn [snd]. unfold only_adds. cbn [heap requests warnings].
  rewrite Hrq, Hwarn, app_nil_r. repeat split. auto.
Qed.

(** X7.  [create], [import], [createMany] and [export] only add to the
    world: each sends at most one request, [createMany] alone says
    something, and every object that existed, the caller's options and
    documents among them, is as it was. *)
Theorem methods_only_add (host : JSONHost) (this : Documents.instance)
    (document : option value) (documents : Documents.string_or_array)
    (records : list value) (options : option ref) (w : world) :
  (exists new, length new = (if ToBoolean document then 1 else 0) /\
               only_adds new [] w (snd (Documents.create this document options w))) /\
  (exists rq, only_adds [rq] [] w (snd (Documents.import this documents options w))) /\
  (exists rq, only_adds [rq] [Documents.createMany_deprecation] w
                (snd (Documents.createMany this records options w))) /\
  (exists rq, only_adds [rq] [] w (snd (Documents.export this options w))).
Proof.
  split; [|split; [|split]].
  - destruct (ToBoolean document) eqn:Htruthy.
    + eexists [_]. split; [reflexivity|].
      rewrite create_run by exact Htruthy. cbn [snd]. apply only_adds_sent.
    + exists []. split; [reflexivity|].
      apply (only_adds_default_options _ _ options).
      unfold Documents.create. unfold mbind, op_bind.
      destruct (Documents.default_options options w) as [r w1].
      rewrite Htruthy. cbn [negb snd mret op_ret].
      unfold only_adds. rewrite !app_nil_r. repeat split. auto.
  - eexists. rewrite import_run. cbn [snd]. apply only_adds_sent.
  - apply (one_added_default_options _ options).
    unfold Documents.createMany. unfold mbind at 1, op_bind.
    destruct (Documents.default_options options w) as [r w1].
    unfold mbind, op_bind, logger_warn. rewrite import_run. eexists.
    cbn [snd Documents.default_options mret op_ret heap requests warnings].
    unfold only_adds. cbn [heap requests warnings]. repeat split. auto.
  - apply (one_added_default_options _ options).
    unfold Documents.export. unfold mbind at 1, op_bind.
    destruct (Documents.default_options options w) as [r w1].
    unfold get, performRequest, send, mbind, op_bind, mret, op_ret. eexists.
    cbn [snd heap requests warnings]. unfold only_adds. cbn [heap requests warnings].
    rewrite app_nil_r. repeat split. auto.
Qed.

(** ** upsert and update against create *)

(** Setting [action] on a copy: what [Object.assign({}, options, {action})]
    holds is the caller's options with [action] set. *)
Lemma assigned_action (h : list object) (r : ref) (v : value) :
  {[ "action" := v ]} ∪ (obj (h ++ [∅; {[ "action" := v ]}]) r ∪ ∅)
  = <[ "action" := v ]> (obj h r).
Proof.
  apply map_eq. intros k. destruct (decide (k = "action")) as [->|Hk].
  - rewrite lookup_insert_eq. apply lookup_union_Some_l, lookup_singleton_eq.
  - rewrite lookup_insert_ne by done.
    rewrite lookup_union_r by (by apply lookup_singleton_ne).
    rewrite lookup_union_l by apply lookup_empty.
    by apply obj_two_fresh.
Qed.

Lemma default_options_contents (options : option ref) (w : world) :
  obj (heap (snd (Documents.default_options options w)))
      (fst (Documents.default_options options w))
  = passed_options options w.
Proof.
  destruct options as [r|]; [reflexivity|].
  cbn [Documents.default_options alloc fst snd heap passed_options].
  change (heap w ++ [∅]) with (heap w ++ ∅ :: []). apply obj_app_length.
Qed.

(** The request of [upsert] and of [update], given a document. *)
Lemma action_request (this : Documents.instance) (action : string)
    (document : option value) (options : option ref) (w : world) :
  let '(r, w1) := Documents.default_options options w in
  requests (snd (post_with_action this action document r w1))
  = requests w
    ++ [{| method := "post"; endpoint := Documents.endpointPath this None;
           queryParameters := <[ "action" := JStr action ]> (passed_options options w);
           bodyParameters := document; additionalHeaders := [] |}].
Proof.
  pose proof (default_options_contents options w) as Hc.
  pose proof (default_options_spec options w) as Hd.
  destruct (Documents.default_options options w) as [r w1].
  destruct Hd as ((Hrq & _) & _). cbn [fst snd] in Hc.
  rewrite post_with_action_run. cbn [snd requests].
  by rewrite assigned_action, Hc, Hrq.
Qed.

(** X8.  Given a document, [upsert] and [update] send the request [create]
    sends, to the same path with the same body, except that [action] is
    set in the query parameters: to 'upsert' and to 'update'. *)
Theorem upsert_sends_what_create_sends (this : Documents.instance) (document : option value)
    (options : option ref) (w : world) :
  ToBoolean document = true ->
  exists rq : request,
    requests (snd (Documents.create this document options w)) = requests w ++ [rq] /\
    requests (snd (Documents.upsert this document options w))
    = requests w
      ++ [{| method := method rq; endpoint := endpoint rq;
             queryParameters := <[ "action" := JStr "upsert" ]> (queryParameters rq);
             bodyParameters := bodyParameters rq;
             additionalHeaders := additionalHeaders rq |}] /\
    requests (snd (Documents.update this document options w))
    = requests w
      ++ [{| method := method rq; endpoint := endpoint rq;
             queryParameters := <[ "action" := JStr "update" ]> (queryParameters rq);
             bodyParameters := bodyParameters rq;
             additionalHeaders := additionalHeaders rq |}].
Proof.
  intros Htruthy. eexists. rewrite create_run by exact Htruthy.
  cbn [snd requests method endpoint queryParameters bodyParameters additionalHeaders].
  split; [reflexivity|].
  pose proof (action_request this "upsert" document options w) as Hupsert.
  pose proof (action_request this "update" document options w) as Hupdate.
  unfold Documents.upsert, Documents.update.
  unfold mbind at 1 6, op_bind.
  destruct (Documents.default_options options w) as [r w1].
  rewrite Htruthy. cbn [negb]. split; [exact Hupsert | exact Hupdate].
Qed.

Lemma upsert_sends_what_create_sends_witness :
  let document := Some record_A in
  ToBoolean document = true /\
  exists rq : request,
    requests (snd (Documents.create unreachable document (Some 0) a_world))
    = requests a_world ++ [rq] /\
    requests (snd (Documents.upsert unreachable document (Some 0) a_world))
    = requests a_world
      ++ [{| method := method rq; endpoint := endpoint rq;
             queryParameters := <[ "action" := JStr "upsert" ]> (queryParameters rq);
             bodyParameters := bodyParameters rq;
             additionalHeaders := additionalHeaders rq |}] /\
    requests (snd (Documents.update unreachable document (Some 0) a_world))
    = requests a_world
      ++ [{| method := method rq; endpoint := endpoint rq;
             queryParameters := <[ "action" := JStr "update" ]> (queryParameters rq);
             bodyParameters := bodyParameters rq;
             additionalHeaders := additionalHeaders rq |}].
Proof.
  intros document. split; [reflexivity|].
  exact (upsert_sends_what_create_sends unreachable document (Some 0) a_world eq_refl).
Defined.

(** ** When the transport fails *)

Lemma export_settles (this : Documents.instance) (options : option ref) (w : world) :
  exists rq : request,
    fst (Documents.export this options w)
    = Returned (settle (response_text (Documents.apiCall this) (requests w) rq)).
Proof.
  unfold Documents.export. unfold mbind at 1, op_bind.
  pose proof (default_options_spec options w) as Hd.
  destruct (Documents.default_options options w) as [r w1].
  destruct Hd as ((<- & _) & _). eexists. reflexivity.
Qed.

Lemma action_settles (this : Documents.instance) (action : string)
    (document : option value) (options : option ref) (w : world) :
  let '(r, w1) := Documents.default_options options w in
  exists rq : request,
    fst (post_with_action this action document r w1)
    = Returned (settle (response_data (Documents.apiCall this) (requests w) rq)).
Proof.
  pose proof (default_options_spec options w) as Hd.
  destruct (Documents.default_options options w) as [r w1].
  destruct Hd as ((<- & _) & _). rewrite post_with_action_run. eexists. reflexivity.
Qed.



(** ** The two ways to import *)


(** ** What is thrown and what is rejected *)

(** X11.  No call of [create], [import], [createMany] or [export] throws:
    whatever goes wrong comes through the promise.  [upsert] and [update]
    throw when there is no document, and only then. *)
Theorem only_upsert_and_update_throw (host : JSONHost) (this : Documents.instance)
    (document : option value) (documents : Documents.string_or_array)
    (records : list value) (options : option ref) (w : world) :
  (exists p, fst (Documents.create this document options w) = Returned p) /\
  (exists p, fst (Documents.import this documents options w) = Returned p) /\
  (exists p, fst (Documents.createMany this records options w) = Returned p) /\
  (exists p, fst (Documents.export this options w) = Returned p) /\
  ((exists e, fst (Documents.upsert this document options w) = Thrown e)
   <-> ToBoolean document = false) /\
  ((exists e, fst (Documents.update this document options w) = Thrown e)
   <-> ToBoolean document = false).
Proof.
  assert (Himport : forall documents options w,
            exists p, fst (Documents.import this documents options w) = Returned p).
  { intros ds os w0. rewrite import_run. eexists. reflexivity. }
  split; [|split; [|split; [|split; [|split]]]].
  - destruct (ToBoolean document) eqn:Htruthy.
    + rewrite create_run by exact Htruthy. eexists. reflexivity.
    + unfold Documents.create. unfold mbind, op_bind.
      destruct (Documents.default_options options w) as [r w1].
      rewrite Htruthy. eexists. reflexivity.
  - apply Himport.
  - unfold Documents.createMany. unfold mbind, op_bind.
    destruct (Documents.default_options options w) as [r w1].
    unfold logger_warn. apply Himport.
  - destruct (export_settles this options w) as (rq & ->). eexists. reflexivity.
  - pose proof (action_settles this "upsert" document options w) as Hs.
    unfold Documents.upsert. unfold mbind at 1, op_bind.
    destruct (Documents.default_options options w) as [r w1].
    destruct (ToBoolean document); cbn [negb].
    + destruct Hs as (rq & Hs). split; [intros (e & He)|discriminate].
      change (fst (post_with_action this "upsert" document r w1) = Thrown e) in He.
      congruence.
    + split; [reflexivity|]. intros _. eexists. reflexivity.
  - pose proof (action_settles this "update" document options w) as Hs.
    unfold Documents.update. unfold mbind at 1, op_bind.
    destruct (Documents.default_options options w) as [r w1].
    destruct (ToBoolean document); cbn [negb].
    + destruct Hs as (rq & Hs). split; [intros (e & He)|discriminate].
      change (fst (post_with_action this "update" document r w1) = Thrown e) in He.
      congruence.
    + split; [reflexivity|]. intros _. eexists. reflexivity.
Qed.
